(** * aeolus: area of a vertical cross-section, net horizontal flux into a
      latitude/longitude box, and the midpoint colour normalisation

    A shallow embedding of [aeolus/misc.py] and [aeolus/plot/mpl.py].

    Numbers.  The Python code works on IEEE doubles; here every number is a
    real ([R]), so that [np.pi] is [PI], [np.cos] is [cos], and rounding,
    overflow, [inf] and [nan] are left out.  Comparisons of the source
    ([<=], [>=], [==], [>]) are the boolean tests [Rleb], [Reqb], [Rltb]
    below.

    Library calls.  [iris] cubes, constraints and coordinate bounds, and
    [numpy.interp], are not part of the repository; they are embedded after
    the behaviour of the libraries, each with a comment naming the call. *)

From Stdlib Require Import Reals Lra Lia Psatz.
From Stdlib Require Import String Bool Arith List.
Import ListNotations.

Open Scope R_scope.

(** ** Boolean comparisons on reals *)

Definition Rleb (x y : R) : bool := if Rle_dec x y then true else false.
Definition Rltb (x y : R) : bool := if Rlt_dec x y then true else false.
Definition Reqb (x y : R) : bool := if Req_dec_T x y then true else false.

(** ** [aeolus/plot/mpl.py] *)

Module Mpl.

(** [numpy.interp(x, xp, fp)] for one value [x]: the index search of numpy
    ([for (i = 1; i < len && key >= arr[i]; ++i); return i - 1], the branch
    used for short arrays), then the value of [fp] at a sample point and the
    line through the two neighbouring samples elsewhere. *)
Fixpoint linear_search (key : R) (arr : list R) (i : nat) : nat :=
  match arr with
  | [] => i
  | a :: rest => if Rleb a key then linear_search key rest (S i) else i
  end.

Definition np_interp (x : R) (xp fp : list R) : R :=
  let len := length xp in
  if Rltb (last xp 0) x then last fp 0
  else if Rltb x (hd 0 xp) then hd 0 fp
  else
    let j := (linear_search x (tl xp) 1 - 1)%nat in
    if Nat.eqb j (len - 1) then nth j fp 0
    else if Reqb (nth j xp 0) x then nth j fp 0
    else
      let slope := (nth (S j) fp 0 - nth j fp 0) / (nth (S j) xp 0 - nth j xp 0) in
      slope * (x - nth j xp 0) + nth j fp 0.

(** [class MidpointNormalize(mcolors.Normalize)]: the attributes set by
    [__init__]. *)
Record MidpointNormalize := {
  vmin : R;
  vmax : R;
  midpoint : R
}.

(** [MidpointNormalize.__call__], on one value. *)
Definition call (self : MidpointNormalize) (value : R) : R :=
  let x := [vmin self; midpoint self; vmax self] in
  let y := [0; 0.5; 1] in
  np_interp value x y.

End Mpl.

(** ** [aeolus/misc.py] *)

Module Misc.

(** *** Exceptions and warnings *)

(** The Python exceptions the two functions can end in. *)
Inductive exn :=
| KeyError (key : string)
| LookupError
| AttributeError
| IndexError
| ValueError
| CoordinateNotFoundError.

(** The step of [net_horizontal_flux_to_region] an exception comes from. *)
Inductive site :=
| at_box          (* [ll_other[...]], [latlon_box_dict[...]] *)
| at_nearest      (* [nearest_coord_value(...)] *)
| at_area         (* [vertical_cross_section_area(...)] *)
| at_flux         (* the product wind * scalar * area *)
| at_collapsed    (* [cube.collapsed(...)], the reduction *)
| at_net.         (* [total_h_fluxes[k]] *)

Inductive result (A : Type) :=
| Ok (a : A)
| Raise (s : site) (e : exn).
Arguments Ok {A} a.
Arguments Raise {A} s e.

Definition rbind {A B} (m : result A) (k : A -> result B) : result B :=
  match m with
  | Ok a => k a
  | Raise s e => Raise s e
  end.

(** The calls of [warnings.warn] during a call.  The first is the one of
    [misc.py], [warnings.warn(f"Nearest value is {np.round(nearest - ll_val,
    2)} deg away from the given value of {this_coord}")], with the two
    values its text is made of (the offset is kept unrounded).  The two
    others come from [cube.collapsed] of iris: ["Collapsing spatial
    coordinate ... without weighting"] and ["Collapsing a non-contiguous
    coordinate. Metadata may not be fully descriptive for ..."], each with
    the name of the coordinate. *)
Inductive warning :=
| NearestValueWarning (w_offset : R) (w_coord : string)
| CollapsingWithoutWeighting (coord_name : string)
| CollapsingNonContiguous (coord_name : string).

(** A computation that may warn, then return or raise. *)
Definition M (A : Type) : Type := (list warning * result A)%type.

Definition ret {A} (a : A) : M A := ([], Ok a).
Definition raise {A} (s : site) (e : exn) : M A := ([], Raise s e).
Definition warn (w : warning) : M unit := ([w], Ok tt).
Definition lift {A} (r : result A) : M A := ([], r).

Definition bind {A B} (m : M A) (k : A -> M B) : M B :=
  match m with
  | (w, Ok a) => let (w', r) := k a in (w ++ w', r)
  | (w, Raise s e) => (w, Raise s e)
  end.

Notation "x <- m ;; k" := (bind m (fun x => k))
  (at level 61, m at next level, right associativity).
Notation "m ;;; k" := (bind m (fun _ => k))
  (at level 61, right associativity).
Notation "x <-- m ;; k" := (rbind m (fun x => k))
  (at level 61, m at next level, right associativity).

(** *** Cubes *)

(** A dimension coordinate as [vertical_cross_section_area] sees it: ordered
    points and, when present, one interval per point.  ([iris] keeps the
    points of a dimension coordinate strictly monotonic, and as many
    intervals as points.) *)
Record Coord := {
  standard_name : string;
  points : list R;
  bounds : option (list (R * R))
}.

(** The cube given to [vertical_cross_section_area]: its dimension
    coordinates in order, its scalar coordinates (name and single point) and
    its data, read at a list of indices, one per dimension. *)
Record Cube := {
  name : string;
  dim_coords : list Coord;
  scalar_coords : list (string * R);
  data : list nat -> R
}.

(** The cubes given to [net_horizontal_flux_to_region] ([scalar_cube], [u],
    [v]) and those it builds: coordinates without bounds, whose cells iris
    compares with a number through their point. *)
Record Axis := {
  axis_name : string;
  axis_points : list R
}.

Record Field := {
  field_name : string;
  axes : list Axis;
  scalars : list (string * R);
  values : list nat -> R
}.

Definition shape (f : Field) : list nat :=
  map (fun a => length (axis_points a)) (axes f).

(** The same cube, seen with coordinates that have no bounds. *)
Definition cube_of (f : Field) : Cube :=
  {| name := field_name f;
     dim_coords := map (fun a => {| standard_name := axis_name a;
                                    points := axis_points a;
                                    bounds := None |}) (axes f);
     scalar_coords := scalars f;
     data := values f |}.

(** Every coordinate of a field with its points. *)
Definition coords (f : Field) : list (string * list R) :=
  map (fun a => (axis_name a, axis_points a)) (axes f)
  ++ map (fun s => (fst s, [snd s])) (scalars f).

(** [cube.coord(name).points] *)
Definition coord_points (f : Field) (coord_name : string) : option (list R) :=
  option_map snd (find (fun c => String.eqb (fst c) coord_name) (coords f)).

(** *** Constraints and extraction ([iris.Constraint], [cube.extract]) *)

(** A constraint is a conjunction ([&]) of tests, each on the cells of one
    named coordinate: [iris.Constraint(name=value)] tests equality with the
    value, [iris.Constraint(name=f)] applies the function [f]. *)
Definition Constraint := list (string * (R -> bool)).

(** The conjunction of the tests a constraint puts on one coordinate. *)
Definition constrained (cs : Constraint) (coord_name : string) (x : R) : bool :=
  forallb (fun c => if String.eqb (fst c) coord_name then snd c x else true) cs.

Definition known (f : Field) (coord_name : string) : bool :=
  existsb (fun c => String.eqb (fst c) coord_name) (coords f).

(** Whether a constraint puts a test on the coordinate at all. *)
Definition tests (cs : Constraint) (coord_name : string) : bool :=
  existsb (fun c => String.eqb (fst c) coord_name) cs.

(** The points of a dimension with their indices, and those that pass a
    test ([np.where] on the column of booleans). *)
Definition enumerate (pts : list R) : list (nat * R) :=
  combine (seq 0 (length pts)) pts.

Definition matching (p : R -> bool) (pts : list R) : list (nat * R) :=
  filter (fun ip => p (snd ip)) (enumerate pts).

(** What extraction does with one dimension: index it by one integer, which
    drops the dimension and leaves a scalar coordinate, or keep the cells
    listed. *)
Inductive selection :=
| Dropped (i : nat) (x : R)
| Kept (cells : list (nat * R)).

(** The key for one dimension ([_ColumnIndexManager.as_slice]): the whole
    dimension when the constraint puts no test on it; otherwise no key at
    all (nothing is extracted) when no cell passes, an integer for one
    match, the matching cells for several. *)
Definition as_slice (tested : bool) (p : R -> bool) (pts : list R)
  : option selection :=
  if tested then
    match matching p pts with
    | [] => None
    | [(i, x)] => Some (Dropped i x)
    | cells => Some (Kept cells)
    end
  else Some (Kept (enumerate pts)).

Fixpoint as_slices (cs : Constraint) (axs : list Axis) : option (list selection) :=
  match axs with
  | [] => Some []
  | a :: rest =>
      match as_slice (tests cs (axis_name a))
              (constrained cs (axis_name a)) (axis_points a) with
      | None => None
      | Some s =>
          match as_slices cs rest with
          | None => None
          | Some ss => Some (s :: ss)
          end
      end
  end.

Fixpoint kept_axes (axs : list Axis) (sels : list selection) : list Axis :=
  match axs, sels with
  | a :: axs', Kept cells :: sels' =>
      {| axis_name := axis_name a; axis_points := map snd cells |}
      :: kept_axes axs' sels'
  | _ :: axs', Dropped _ _ :: sels' => kept_axes axs' sels'
  | _, _ => []
  end.

Fixpoint dropped_scalars (axs : list Axis) (sels : list selection)
  : list (string * R) :=
  match axs, sels with
  | a :: axs', Dropped _ x :: sels' => (axis_name a, x) :: dropped_scalars axs' sels'
  | _ :: axs', Kept _ :: sels' => dropped_scalars axs' sels'
  | _, _ => []
  end.

(** The indices in the original cube of the cell at [idx] of the extract. *)
Fixpoint reindex (sels : list selection) (idx : list nat) : list nat :=
  match sels with
  | [] => []
  | Dropped i _ :: sels' => i :: reindex sels' idx
  | Kept cells :: sels' =>
      match idx with
      | j :: idx' => fst (nth j cells (0%nat, 0)) :: reindex sels' idx'
      | [] => 0%nat :: reindex sels' []
      end
  end.

(** [cube.extract(constraint)]: [None] when a constrained coordinate is
    missing, a scalar coordinate fails its test or a dimension has no
    matching cell. *)
Definition extract (cs : Constraint) (f : Field) : option Field :=
  if negb (forallb (fun c => known f (fst c)) cs) then None
  else if negb (forallb (fun s => constrained cs (fst s) (snd s)) (scalars f))
  then None
  else match as_slices cs (axes f) with
       | None => None
       | Some sels =>
           Some {| field_name := field_name f;
                   axes := kept_axes (axes f) sels;
                   scalars := scalars f ++ dropped_scalars (axes f) sels;
                   values := fun idx => values f (reindex sels idx) |}
       end.

(** *** Arithmetic and reduction on cubes *)

Fixpoint Rlist_eqb (xs ys : list R) : bool :=
  match xs, ys with
  | [], [] => true
  | x :: xs', y :: ys' => Reqb x y && Rlist_eqb xs' ys'
  | _, _ => false
  end.

Fixpoint same_grid (xs ys : list Axis) : bool :=
  match xs, ys with
  | [], [] => true
  | a :: xs', b :: ys' =>
      String.eqb (axis_name a) (axis_name b)
      && Rlist_eqb (axis_points a) (axis_points b)
      && same_grid xs' ys'
  | _, _ => false
  end.

(** [a * b] on two cubes: cell by cell when both lie on the same dimension
    coordinates, refused otherwise.  The cells are real numbers: a product
    is never rounded and never overflows, and a cube holds no [inf] and no
    [nan]. *)
Definition multiply (a b : Field) : result Field :=
  if same_grid (axes a) (axes b) then
    Ok {| field_name := field_name a;
          axes := axes a;
          scalars := scalars a;
          values := fun idx => values a idx * values b idx |}
  else Raise at_flux ValueError.

(** The sum of the cells of an array of the given shape. *)
Fixpoint sum_over (shp : list nat) (v : list nat -> R) : R :=
  match shp with
  | [] => v []
  | n :: rest =>
      fold_right Rplus 0
        (map (fun i => sum_over rest (fun idx => v (i :: idx))) (seq 0 n))
  end.

(** The data of a cube collapsed over all its dimensions. *)
Definition total (cube : Field) : R := sum_over (shape cube) (values cube).

(** ["latitude" in coord.name()] *)
Definition mentions_latitude (coord_name : string) : bool :=
  match index 0 "latitude" coord_name with
  | Some _ => true
  | None => false
  end.

(** The warnings of [cube.collapsed(cube.dim_coords, iris.analysis.SUM)].
    [SUM] is an aggregator that takes weights and gets none here, so iris
    first warns for each of the coordinates whose name mentions the
    latitude; then it collapses every dimension coordinate, and warns for
    each one that is not contiguous, which a coordinate without bounds never
    is: the coordinates of the product come from the extracted wind, and
    those of a [Field] have no bounds. *)
Definition collapsed_warnings (cube : Field) : list warning :=
  map CollapsingWithoutWeighting
      (filter mentions_latitude (map axis_name (axes cube)))
  ++ map CollapsingNonContiguous (map axis_name (axes cube)).

(** [cube.collapsed(cube.dim_coords, iris.analysis.SUM)]: the warnings, then
    the sum of all the cells. *)
Definition collapsed (cube : Field) : M R :=
  (collapsed_warnings cube, Ok (total cube)).

(** *** Bounds of a coordinate ([Coord.guess_bounds]) *)

(** [np.diff(points)] *)
Fixpoint np_diff (pts : list R) : list R :=
  match pts with
  | p :: (q :: _) as rest => (q - p) :: np_diff rest
  | _ => []
  end.

(** [np.clip(x, lo, hi)] *)
Definition np_clip (lo hi x : R) : R :=
  if Rltb x lo then lo else if Rltb hi x then hi else x.

Definition is_latitude (coord_name : string) : bool :=
  String.eqb coord_name "latitude" || String.eqb coord_name "grid_latitude".

(** [coord.guess_bounds()] of iris with the default [bound_position=0.5],
    for a coordinate that is not circular.  A coordinate of fewer than two
    points is refused with a [ValueError] (there is no spacing to go by:
    [np.diff] of one point is empty).  Otherwise [diffs] is
    [np.diff(points)] with its first and its last entry repeated, the lower
    bounds are [points - diffs[:-1] * 0.5] and the upper bounds
    [points + diffs[1:] * (1 - 0.5)]; for a coordinate named [latitude] or
    [grid_latitude] (in degrees) whose points all lie in [-90, 90], the
    bounds are then clipped to that range ([np.clip(bounds, -90, 90)]). *)
Definition guess_bounds (c : Coord) : result (list (R * R)) :=
  if (length (points c) <? 2)%nat then Raise at_area ValueError
  else
    let d := np_diff (points c) in
    let diffs := hd 0 d :: d ++ [last d 0] in
    let min_bounds :=
      map (fun pe => fst pe - snd pe * 0.5) (combine (points c) (removelast diffs)) in
    let max_bounds :=
      map (fun pe => fst pe + snd pe * (1 - 0.5)) (combine (points c) (tl diffs)) in
    let bnds := combine min_bounds max_bounds in
    if is_latitude (standard_name c)
       && forallb (fun p => Rleb (-90) p && Rleb p 90) (points c)
    then Ok (map (fun b => (np_clip (-90) 90 (fst b), np_clip (-90) 90 (snd b))) bnds)
    else Ok bnds.

(** *** [vertical_cross_section_area] *)

Inductive axis_letter := AxisX | AxisY.

(** [iris.util.guess_coord_axis(coord)], as far as the code asks: "X" and
    "Y" are told from the coordinate's name (the axes "Z" and "T", told from
    units, are [None] here). *)
Definition guess_coord_axis (coord_name : string) : option axis_letter :=
  if existsb (String.eqb coord_name)
       ["longitude"; "grid_longitude"; "projection_x_coordinate"]%string
  then Some AxisX
  else if existsb (String.eqb coord_name)
            ["latitude"; "grid_latitude"; "projection_y_coordinate"]%string
  then Some AxisY
  else None.

Definition is_Y (coord_name : string) : bool :=
  match guess_coord_axis coord_name with
  | Some AxisY => true
  | _ => false
  end.

(** [cube2d.coord(axis="Y").points]: the one coordinate of the cube, on a
    dimension or scalar, that lies on the Y axis. *)
Definition coord_axis_Y (cube : Cube) : result (list R) :=
  match filter (fun c => is_Y (fst c))
          (map (fun c => (standard_name c, points c)) (dim_coords cube)
           ++ map (fun s => (fst s, [snd s])) (scalar_coords cube)) with
  | [c] => Ok (snd c)
  | _ => Raise at_area CoordinateNotFoundError
  end.

(** [np.deg2rad] *)
Definition deg2rad (x : R) : R := x * (PI / 180).

(** [if not dim_coord.has_bounds(): dim_coord.guess_bounds()], then
    [.bounds]. *)
Definition bounds_or_guess (c : Coord) : result (list (R * R)) :=
  match bounds c with
  | Some b => Ok b
  | None => guess_bounds c
  end.

Fixpoint all_bounds (cs : list Coord) : result (list (list (R * R))) :=
  match cs with
  | [] => Ok []
  | c :: rest =>
      b <-- bounds_or_guess c ;;
      bs <-- all_bounds rest ;;
      Ok (b :: bs)
  end.

(** [b[:, 1] - b[:, 0]] *)
Definition widths (b : list (R * R)) : list R :=
  map (fun lh => snd lh - fst lh) b.

(** [vertical_cross_section_area(cube2d, r_planet)]; the argument is [None]
    when it comes from an extraction that matched nothing.  The result has
    no bounds on its coordinates ([dim_coord.bounds = None]). *)
Definition vertical_cross_section_area (cube2d : option Cube) (r_planet : R)
  : result Field :=
  match cube2d with
  | None => Raise at_area AttributeError
  | Some cube2d =>
      let m_per_deg := (PI / 180) * r_planet in
      match dim_coords cube2d with
      | c0 :: c1 :: _ =>
          m_per_deg <--
            match guess_coord_axis (standard_name c1) with
            | Some AxisX =>
                y <-- coord_axis_Y cube2d ;;
                match y with
                | p0 :: _ => Ok (m_per_deg * cos (deg2rad p0))
                | [] => Raise at_area IndexError
                end
            | _ => Ok m_per_deg
            end ;;
          bs <-- all_bounds (dim_coords cube2d) ;;
          let x_bounds := nth 1 bs [] in
          let z_bounds := nth 0 bs [] in
          let dz := widths z_bounds in
          let dx := widths x_bounds in
          if Nat.eqb (length (dim_coords cube2d)) 2
             && Nat.eqb (length dz) (length (points c0))
             && Nat.eqb (length dx) (length (points c1))
          then
            Ok {| field_name := "vertical_section_area";
                  axes := map (fun c => {| axis_name := standard_name c;
                                           axis_points := points c |})
                              (dim_coords cube2d);
                  scalars := scalar_coords cube2d;
                  values := fun idx =>
                    match idx with
                    | [i; j] => nth i dz 0 * (nth j dx 0 * m_per_deg)
                    | _ => 0
                    end |}
          else Raise at_area ValueError
      | _ => Raise at_area IndexError
      end
  end.

(** *** [net_horizontal_flux_to_region] *)

(** Modelled from the spec: [nearest_coord_value] of [aeolus/coord_utils.py]
    is imported by [misc.py] but is not among the sources.  The spec has it
    snap the requested value to the nearest available value of the axis, and
    fail with a lookup error when the axis offers no candidate.  Of two
    values at the same distance the earlier one is taken. *)
Definition nearer (val best q : R) : R :=
  if Rltb (Rabs (q - val)) (Rabs (best - val)) then q else best.

Definition nearest_coord_value (cube : Field) (coord_name : string) (val : R)
  : result R :=
  match coord_points cube coord_name with
  | Some (p :: ps) => Ok (fold_left (nearer val) ps p)
  | _ => Raise at_nearest LookupError
  end.

(** [ll_coord[:-1]] *)
Fixpoint drop_last (s : string) : string :=
  match s with
  | EmptyString => EmptyString
  | String c rest =>
      match rest with
      | EmptyString => EmptyString
      | _ => String c (drop_last rest)
      end
  end.

(** [ll_other = {"longitude": "latitude", "latitude": "longitude"}] *)
Definition ll_other (key : string) : result string :=
  if String.eqb key "longitude" then Ok "latitude"%string
  else if String.eqb key "latitude" then Ok "longitude"%string
  else Raise at_box (KeyError key).

(** [perpendicular_wind_cmpnts = {"longitude": u, "latitude": v}] *)
Definition perpendicular_wind_cmpnts (u v : Field) (key : string) : result Field :=
  if String.eqb key "longitude" then Ok u
  else if String.eqb key "latitude" then Ok v
  else Raise at_flux (KeyError key).

(** [latlon_box_dict]: a dictionary in the order of its items, keys
    distinct. *)
Definition box := list (string * R).

Definition dict_get (d : box) (key : string) : result R :=
  match find (fun kv => String.eqb (fst kv) key) d with
  | Some kv => Ok (snd kv)
  | None => Raise at_box (KeyError key)
  end.

(** The dictionary literal of a box, in the order
    [longitude0, longitude1, latitude0, latitude1]. *)
Definition latlon_box (longitude0 longitude1 latitude0 latitude1 : R) : box :=
  [("longitude0"%string, longitude0); ("longitude1"%string, longitude1);
   ("latitude0"%string, latitude0); ("latitude1"%string, latitude1)].

(** The tests on the free axis (the two lambdas). *)
Definition within (other_min other_max x : R) : bool :=
  Rleb other_min x && Rleb x other_max.

Definition wrapped (other_min other_max x : R) : bool :=
  Rleb x other_max || Rleb other_min x.

(** One pass of the loop up to the constraint [vcross_cnstr]: the fixed
    axis, the snap to the grid with its warning, the range of the free
    axis. *)
Definition boundary_constraint (scalar_cube : Field) (latlon_box_dict : box)
    (vertical_constraint : option Constraint) (item : string * R)
  : M (string * Constraint) :=
  let (ll_coord, ll_val) := item in
  let this_coord := drop_last ll_coord in
  other_coord <- lift (ll_other (drop_last ll_coord)) ;;
  nearest <- lift (nearest_coord_value scalar_cube this_coord ll_val) ;;
  (if Rltb 10 (Rabs (nearest - ll_val))
   then warn (NearestValueWarning (nearest - ll_val) this_coord)
   else ret tt) ;;;
  let vcross_cnstr : Constraint := [(this_coord, fun x => Reqb x nearest)] in
  other_min <- lift (dict_get latlon_box_dict (String.append other_coord "0")) ;;
  other_max <- lift (dict_get latlon_box_dict (String.append other_coord "1")) ;;
  let vcross_cnstr :=
    match vertical_constraint with
    | Some vc => vcross_cnstr ++ vc
    | None => vcross_cnstr
    end in
  if Rleb other_min other_max
  then ret (this_coord, vcross_cnstr ++ [(other_coord, within other_min other_max)])
  else ret (this_coord, vcross_cnstr ++ [(other_coord, wrapped other_min other_max)]).

(** [a * b] where an operand may be [None], the result of an extraction
    that matched nothing: iris asks the operand for its [dtype], which
    [None] has not. *)
Definition multiply_extracted (a : option Field) (b : option Field) : result Field :=
  match a, b with
  | Some a, Some b => multiply a b
  | _, _ => Raise at_flux AttributeError
  end.

(** The rest of the pass up to the product: the cross-section, its cell
    areas and the flux through each cell. *)
Definition cross_section_cube (scalar_cube u v : Field) (r_planet : R)
    (this_coord : string) (vcross_cnstr : Constraint) : result Field :=
  let cube := extract vcross_cnstr scalar_cube in
  vcross_area <-- vertical_cross_section_area (option_map cube_of cube) r_planet ;;
  wind <-- perpendicular_wind_cmpnts u v this_coord ;;
  ws <-- multiply_extracted (extract vcross_cnstr wind)
                            (extract vcross_cnstr scalar_cube) ;;
  multiply ws vcross_area.

(** The rest of the pass: the product, then its total. *)
Definition cross_section_flux (scalar_cube u v : Field) (r_planet : R)
    (this_coord : string) (vcross_cnstr : Constraint) : M R :=
  cube <- lift (cross_section_cube scalar_cube u v r_planet this_coord
                  vcross_cnstr) ;;
  collapsed cube.

Definition boundary_flux (scalar_cube : Field) (latlon_box_dict : box)
    (u v : Field) (r_planet : R) (vertical_constraint : option Constraint)
    (item : string * R) : M R :=
  tc <- boundary_constraint scalar_cube latlon_box_dict vertical_constraint item ;;
  cross_section_flux scalar_cube u v r_planet (fst tc) (snd tc).

(** The loop over [latlon_box_dict.items()], filling [total_h_fluxes]. *)
Fixpoint for_each {A B} (f : A -> M B) (items : list A) : M (list B) :=
  match items with
  | [] => ret []
  | it :: rest =>
      b <- f it ;;
      bs <- for_each f rest ;;
      ret (b :: bs)
  end.

(** The returned scalar cube: its name and its value. *)
Record FluxResult := {
  flux_name : string;
  flux : R
}.

Definition net_horizontal_flux_to_region (scalar_cube : Field)
    (latlon_box_dict : box) (u v : Field) (r_planet : R)
    (vertical_constraint : option Constraint) : M FluxResult :=
  total_h_fluxes <-
    for_each (boundary_flux scalar_cube latlon_box_dict u v r_planet
                vertical_constraint) latlon_box_dict ;;
  match total_h_fluxes with
  | f0 :: f1 :: f2 :: f3 :: _ =>
      ret {| flux_name :=
               String.append "net_"
                 (String.append (field_name scalar_cube)
                    "_horizontal_flux_to_region");
             flux := (f0 - f1) + (f2 - f3) |}
  | _ => raise at_net IndexError
  end.

End Misc.

(** ** Concrete inputs *)

Module Cases.

Import Misc.

(** A field on two levels, two latitudes and two longitudes, whose value is
    the index of the longitude; an eastward wind of 1 and no northward
    wind. *)
Definition ex_axes : list Axis :=
  [ {| axis_name := "height"; axis_points := [0; 1] |};
    {| axis_name := "latitude"; axis_points := [0; 1] |};
    {| axis_name := "longitude"; axis_points := [0; 1] |} ].

Definition ex_scalar : Field :=
  {| field_name := "q"; axes := ex_axes; scalars := [];
     values := fun idx => match idx with [_; _; j] => INR j | _ => 0 end |}.

Definition ex_u : Field :=
  {| field_name := "u"; axes := ex_axes; scalars := []; values := fun _ => 1 |}.

Definition ex_v : Field :=
  {| field_name := "v"; axes := ex_axes; scalars := []; values := fun _ => 0 |}.

Definition ex_box : box := latlon_box 0 1 0 1.

(** A box whose longitudes 0.2 and 0.8 lie between the two grid
    longitudes. *)
Definition ex_box_between : box := latlon_box 0.2 0.8 0 1.

(** A box whose eastern longitude is 15 degrees away from the grid. *)
Definition ex_box_far : box := latlon_box 0 16 0 1.









(** Evenly spaced points. *)
Definition uniform (p0 d : R) (n : nat) : list R :=
  map (fun i => p0 + INR i * d) (seq 0 n).

(** The bounds the spec describes for evenly spaced points: each cell
    reaches half a spacing below and above its point, which puts the inner
    bounds at the midpoints between neighbours and lets the two edge cells
    extrapolate the spacing. *)
Definition midpoint_bounds (pts : list R) (d : R) : list (R * R) :=
  map (fun p => (p - d / 2, p + d / 2)) pts.

(** A coordinate with evenly spaced points, with those bounds or with
    none. *)
Definition uniform_coord (coord_name : string) (p0 d : R) (n : nat)
    (with_bounds : bool) : Coord :=
  {| standard_name := coord_name;
     points := uniform p0 d n;
     bounds := if with_bounds
               then Some (midpoint_bounds (uniform p0 d n) d)
               else None |}.

(** A two-dimensional slice on two such coordinates. *)
Definition uniform_slice (name0 : string) (p0 d0 : R) (n0 : nat)
    (name1 : string) (p1 d1 : R) (n1 : nat) (scal : list (string * R))
    (v : list nat -> R) (with_bounds : bool) : Cube :=
  {| name := "slice";
     dim_coords := [ uniform_coord name0 p0 d0 n0 with_bounds;
                     uniform_coord name1 p1 d1 n1 with_bounds ];
     scalar_coords := scal;
     data := v |}.

(** The guessed bounds of a latitude are clipped at the poles; this says
    that the cells of a coordinate stay clear of that. *)
Definition clear_of_poles (coord_name : string) (p0 d : R) (n : nat) : Prop :=
  is_latitude coord_name = true ->
  forall p, In p (uniform p0 d n) ->
            -90 <= p - d / 2 <= 90 /\ -90 <= p + d / 2 <= 90.

(** A slice with a single level, its height with the given bounds. *)
Definition ex_one_level (b : option (list (R * R))) : Cube :=
  {| name := "q";
     dim_coords :=
       [ {| standard_name := "height"; points := [5]; bounds := b |};
         {| standard_name := "latitude"; points := [0; 1]; bounds := None |} ];
     scalar_coords := [("longitude"%string, 0)];
     data := fun _ => 1 |}.

(** A height/latitude slice from pole to pole, its latitudes with the given
    bounds. *)
Definition ex_pole_to_pole (b : option (list (R * R))) : Cube :=
  {| name := "q";
     dim_coords :=
       [ {| standard_name := "height"; points := [0; 1]; bounds := None |};
         {| standard_name := "latitude"; points := [-90; 0; 90]; bounds := b |} ];
     scalar_coords := [("longitude"%string, 0)];
     data := fun _ => 1 |}.

(** The warnings iris issues when it collapses a section of these fields:
    height by latitude at a longitude, height by longitude at a latitude,
    time by height on the field with a time dimension. *)
Definition ex_collapsed_at_longitude : list warning :=
  [CollapsingWithoutWeighting "latitude";
   CollapsingNonContiguous "height"; CollapsingNonContiguous "latitude"].

Definition ex_collapsed_at_latitude : list warning :=
  [CollapsingNonContiguous "height"; CollapsingNonContiguous "longitude"].


(** Those of a whole call: two longitude passes, then two latitude
    passes. *)
Definition ex_collapsed : list warning :=
  ex_collapsed_at_longitude ++ ex_collapsed_at_longitude
  ++ ex_collapsed_at_latitude ++ ex_collapsed_at_latitude.

(** The constraints the passes of the loop build on these fields. *)
Definition on_longitude (x lo hi : R) : Constraint :=
  [("longitude"%string, fun y => Reqb y x); ("latitude"%string, within lo hi)].

Definition on_latitude (x lo hi : R) : Constraint :=
  [("latitude"%string, fun y => Reqb y x); ("longitude"%string, within lo hi)].


End Cases.

(** ** Notions used in the statements *)

Module Notions.

Import Misc.

(** The test on the free axis, whichever of the two branches builds it. *)
Definition free_axis_test (other_min other_max : R) : R -> bool :=
  if Rleb other_min other_max
  then within other_min other_max
  else wrapped other_min other_max.

(** The warnings of one pass that snaps [val] to [nearest]. *)
Definition snap_warning (this_coord : string) (nearest val : R) : list warning :=
  if Rltb 10 (Rabs (nearest - val))
  then [NearestValueWarning (nearest - val) this_coord]
  else [].

(** The points a selection leaves on its dimension. *)
Definition selected_points (s : selection) : list R :=
  match s with
  | Dropped _ x => [x]
  | Kept cells => map snd cells
  end.

(** The coordinates of an extract, from the selections of its dimensions. *)
Definition extracted_coords (axs : list Axis) (sels : list selection)
  : list (string * list R) :=
  map (fun a => (axis_name a, axis_points a)) (kept_axes axs sels)
  ++ map (fun s => (fst s, [snd s])) (dropped_scalars axs sels).

End Notions.


(** ** Notions used to state how the functions respond to their inputs *)

Module Views.

Import Misc.

(** The warnings of [misc.py] itself among the warnings of a call: those
    of its one [warnings.warn], apart from the ones iris issues. *)
Definition is_own (w : warning) : bool :=
  match w with
  | NearestValueWarning _ _ => true
  | _ => false
  end.

Definition own_warnings (ws : list warning) : list warning := filter is_own ws.

(** Inputs far below the largest double (about 1.8e308): the radius and the
    points of every dimension are at most 1e100 in absolute value.  The
    bounds guessed for a dimension are then at most 2e100, the width of a
    cell at most 4e100 and its area at most 4e100 * (4e100 * 1.75e98), so
    that no product of the area computation overflows and no cell area is
    [inf] or [nan]; there the doubles of the code agree with the reals on
    [0 * x = 0]. *)
Definition in_double_range (scalar_cube : Field) (r_planet : R) : Prop :=
  Rabs r_planet <= 10 ^ 100
  /\ forall a p, In a (axes scalar_cube) -> In p (axis_points a) ->
                 Rabs p <= 10 ^ 100.

(** The constraint of a pass: the fixed axis at the snapped value, the
    vertical constraint if there is one, the range of the free axis. *)
Definition pass_constraint (this_coord : string) (nearest : R)
    (vc : option Constraint) (other : string) (other_min other_max : R)
  : Constraint :=
  ((this_coord, fun x => Reqb x nearest)
   :: match vc with Some c => c | None => [] end)
  ++ [(other, Notions.free_axis_test other_min other_max)].

(** The names of all the coordinates of a cube. *)
Definition coord_names (c : Cube) : list string :=
  map standard_name (dim_coords c) ++ map fst (scalar_coords c).

(** The field [f.copy(data=k * f.data)]: the data of [f] times a number,
    under the name and on the coordinates of [f]. *)
Definition scale (k : R) (f : Field) : Field :=
  {| field_name := field_name f;
     axes := axes f;
     scalars := scalars f;
     values := fun idx => k * values f idx |}.

(** Two outcomes of the product of a pass that differ by a factor: the same
    error, or cubes on the same dimensions with the cells of the second [k]
    times those of the first. *)
Definition scaled_cube (k : R) (r r' : result Field) : Prop :=
  match r with
  | Ok cube =>
      exists cube',
        r' = Ok cube'
        /\ axes cube' = axes cube
        /\ forall idx, values cube' idx = k * values cube idx
  | Raise s e => r' = Raise s e
  end.

(** A function applied to the value a computation returns, if it returns. *)
Definition rmap {A B} (g : A -> B) (r : result A) : result B :=
  match r with
  | Ok a => Ok (g a)
  | Raise s e => Raise s e
  end.

(** The returned cube with its value times a number. *)
Definition scale_flux (k : R) (res : FluxResult) : FluxResult :=
  {| flux_name := flux_name res; flux := k * flux res |}.

End Views.
(** * Properties *)

(** ** Deciding the tests on reals *)

Lemma Rleb_true (x y : R) : x <= y -> Rleb x y = true.
Proof. intros H; unfold Rleb; destruct (Rle_dec x y); [reflexivity | contradiction]. Qed.

Lemma Rleb_false (x y : R) : y < x -> Rleb x y = false.
Proof. intros H; unfold Rleb; destruct (Rle_dec x y); [lra | reflexivity]. Qed.

Lemma Rltb_true (x y : R) : x < y -> Rltb x y = true.
Proof. intros H; unfold Rltb; destruct (Rlt_dec x y); [reflexivity | contradiction]. Qed.

Lemma Rltb_false (x y : R) : y <= x -> Rltb x y = false.
Proof. intros H; unfold Rltb; destruct (Rlt_dec x y); [lra | reflexivity]. Qed.

Lemma Reqb_true (x y : R) : x = y -> Reqb x y = true.
Proof. intros H; unfold Reqb; destruct (Req_dec_T x y); [reflexivity | contradiction]. Qed.

Lemma Reqb_false (x y : R) : x <> y -> Reqb x y = false.
Proof. intros H; unfold Reqb; destruct (Req_dec_T x y); [contradiction | reflexivity]. Qed.


Lemma Rltb_spec (x y : R) : Rltb x y = true <-> x < y.
Proof. unfold Rltb; destruct (Rlt_dec x y); split; intros; try discriminate; auto; lra. Qed.

Lemma Reqb_spec (x y : R) : Reqb x y = true <-> x = y.
Proof.
  unfold Reqb; destruct (Req_dec_T x y); split; intros; try discriminate; auto;
  contradiction.
Qed.

Lemma half : 0.5 = / 2.
Proof. lra. Qed.

Lemma frac_unit (a b : R) : 0 <= a <= b -> 0 < b -> 0 <= a / b <= 1.
Proof.
  intros Ha Hb.
  assert (Hi : 0 < / b) by (apply Rinv_0_lt_compat; exact Hb).
  assert (Hm : a / b * b = a) by (field; lra).
  unfold Rdiv in *; nra.
Qed.

Lemma frac_mono (a a' b : R) : a <= a' -> 0 < b -> a / b <= a' / b.
Proof.
  intros Ha Hb.
  assert (Hi : 0 < / b) by (apply Rinv_0_lt_compat; exact Hb).
  unfold Rdiv; nra.
Qed.

Import Misc.
Import Notions.
Import Cases.
Import Views.

(** Evaluation of a closed expression: absolute values and tests between
    numbers are settled by linear arithmetic. *)
Ltac Rabs_eval :=
  match goal with
  | |- context [Rabs ?x] =>
      first [ rewrite (Rabs_pos_eq x) by lra | rewrite (Rabs_left1 x) by lra ]
  end.

Ltac Rtest_eval :=
  match goal with
  | |- context [Rleb ?a ?b] =>
      first [ rewrite (Rleb_true a b) by lra | rewrite (Rleb_false a b) by lra ]
  | |- context [Rltb ?a ?b] =>
      first [ rewrite (Rltb_true a b) by lra | rewrite (Rltb_false a b) by lra ]
  | |- context [Reqb ?a ?b] =>
      first [ rewrite (Reqb_true a b) by lra | rewrite (Reqb_false a b) by lra ]
  end.

Ltac Reval :=
  repeat first [ progress simpl | Rabs_eval | Rtest_eval ].

(** Unfolding the tests and the selection of cells, and running one pass of
    the loop on a concrete field. *)
Ltac Rstep :=
  unfold nearer, within, wrapped, np_clip, is_Y, deg2rad, as_slice, tests,
    matching, enumerate, constrained.

Ltac eval_constraint :=
  unfold boundary_constraint; repeat (Reval; Rstep); reflexivity.

Ltac eval_product :=
  unfold cross_section_cube, extract; repeat (Reval; Rstep);
  unfold vertical_cross_section_area, guess_bounds, coord_axis_Y; cbn;
  repeat (Reval; Rstep);
  unfold multiply_extracted, extract, multiply; repeat (Reval; Rstep).

Ltac eval_section :=
  unfold cross_section_flux; eval_product;
  unfold collapsed, collapsed_warnings, total; repeat (Reval; Rstep);
  refine (f_equal2 pair eq_refl (f_equal Ok _)).

(** ** [MidpointNormalize] *)

Section Normalize.

Import Mpl.

Variable self : MidpointNormalize.
Hypothesis vmin_lt_midpoint : vmin self < midpoint self.
Hypothesis midpoint_lt_vmax : midpoint self < vmax self.

Lemma call_below (x : R) : x < vmin self -> call self x = 0.
Proof using All. intros Hx; unfold call, np_interp; Reval; reflexivity. Qed.

Lemma call_above (x : R) : vmax self < x -> call self x = 1.
Proof using All. intros Hx; unfold call, np_interp; Reval; reflexivity. Qed.

Lemma call_vmax : call self (vmax self) = 1.
Proof using All. unfold call, np_interp; Reval; reflexivity. Qed.

Lemma call_lower (x : R) :
  vmin self <= x < midpoint self ->
  call self x = 0.5 * ((x - vmin self) / (midpoint self - vmin self)).
Proof using All.
  intros Hx; unfold call, np_interp; Reval.
  destruct (Req_dec_T (vmin self) x) as [E | N].
  - rewrite (Reqb_true _ _ E), <- E; rewrite half; field; lra.
  - rewrite (Reqb_false _ _ N); rewrite half; field; lra.
Qed.

Lemma call_upper (x : R) :
  midpoint self <= x < vmax self ->
  call self x = 0.5 + 0.5 * ((x - midpoint self) / (vmax self - midpoint self)).
Proof using All.
  intros Hx; unfold call, np_interp; Reval.
  destruct (Req_dec_T (midpoint self) x) as [E | N].
  - rewrite (Reqb_true _ _ E), <- E; rewrite half; field; lra.
  - rewrite (Reqb_false _ _ N); rewrite half; field; lra.
Qed.

Lemma call_range (x : R) : 0 <= call self x <= 1.
Proof using All.
  destruct (Rlt_dec x (vmin self)); [rewrite call_below by lra; lra |].
  destruct (Rlt_dec (vmax self) x); [rewrite call_above by lra; lra |].
  destruct (Rlt_dec x (midpoint self)).
  - rewrite call_lower by lra.
    pose proof (frac_unit (x - vmin self) (midpoint self - vmin self)).
    lra.
  - destruct (Rlt_dec x (vmax self)).
    + rewrite call_upper by lra.
      pose proof (frac_unit (x - midpoint self) (vmax self - midpoint self)).
      lra.
    + replace x with (vmax self) by lra. rewrite call_vmax; lra.
Qed.

End Normalize.

(** C10, the claim as written fails: with [vmin = midpoint] the value
    [vmin] is sent to 0.5, not to 0. *)
Lemma midpoint_normalize_degenerate :
  let self := {| Mpl.vmin := 0; Mpl.vmax := 1; Mpl.midpoint := 0 |} in
  Mpl.vmin self <= Mpl.midpoint self <= Mpl.vmax self
  /\ Mpl.call self (Mpl.vmin self) = 0.5
  /\ Mpl.call self (Mpl.vmin self) <> 0.
Proof.
  assert (E : Mpl.call {| Mpl.vmin := 0; Mpl.vmax := 1; Mpl.midpoint := 0 |} 0 = 0.5).
  { unfold Mpl.call, Mpl.np_interp; Reval; reflexivity. }
  simpl; repeat split; try lra; rewrite E; lra.
Qed.

(** C10, amended: for [vmin < midpoint < vmax] the call sends [vmin] to 0,
    [midpoint] to 0.5 and [vmax] to 1, is 0 below [vmin] and 1 above [vmax],
    follows the straight line between the anchors on each of the two
    segments, and never decreases. *)
Theorem midpoint_normalize_piecewise_linear (self : Mpl.MidpointNormalize) :
  Mpl.vmin self < Mpl.midpoint self ->
  Mpl.midpoint self < Mpl.vmax self ->
  Mpl.call self (Mpl.vmin self) = 0
  /\ Mpl.call self (Mpl.midpoint self) = 0.5
  /\ Mpl.call self (Mpl.vmax self) = 1
  /\ (forall x, x < Mpl.vmin self -> Mpl.call self x = 0)
  /\ (forall x, Mpl.vmax self < x -> Mpl.call self x = 1)
  /\ (forall x, Mpl.vmin self <= x <= Mpl.midpoint self ->
        Mpl.call self x
        = 0.5 * ((x - Mpl.vmin self) / (Mpl.midpoint self - Mpl.vmin self)))
  /\ (forall x, Mpl.midpoint self <= x <= Mpl.vmax self ->
        Mpl.call self x
        = 0.5 + 0.5 * ((x - Mpl.midpoint self) / (Mpl.vmax self - Mpl.midpoint self)))
  /\ (forall x y, x <= y -> Mpl.call self x <= Mpl.call self y).
Proof.
  intros H1 H2.
  assert (Hmid : Mpl.call self (Mpl.midpoint self) = 0.5).
  { rewrite (call_upper self H1 H2) by lra.
    replace (Mpl.midpoint self - Mpl.midpoint self) with 0 by ring.
    unfold Rdiv; rewrite Rmult_0_l; lra. }
  assert (Hlow : forall x, Mpl.vmin self <= x <= Mpl.midpoint self ->
            Mpl.call self x
            = 0.5 * ((x - Mpl.vmin self) / (Mpl.midpoint self - Mpl.vmin self))).
  { intros x Hx. destruct (Req_dec_T x (Mpl.midpoint self)) as [E | N].
    - subst x. rewrite Hmid, half. field; lra.
    - apply (call_lower self H1 H2); lra. }
  assert (Hup : forall x, Mpl.midpoint self <= x <= Mpl.vmax self ->
            Mpl.call self x
            = 0.5 + 0.5 * ((x - Mpl.midpoint self) / (Mpl.vmax self - Mpl.midpoint self))).
  { intros x Hx. destruct (Req_dec_T x (Mpl.vmax self)) as [E | N].
    - subst x. rewrite (call_vmax self H1 H2). rewrite half. field; lra.
    - apply (call_upper self H1 H2); lra. }
  repeat split.
  - rewrite Hlow by lra.
    replace (Mpl.vmin self - Mpl.vmin self) with 0 by ring.
    unfold Rdiv; rewrite Rmult_0_l; lra.
  - exact Hmid.
  - apply (call_vmax self H1 H2).
  - intros x Hx; apply (call_below self H1 H2); lra.
  - intros x Hx; apply (call_above self H1 H2); lra.
  - exact Hlow.
  - exact Hup.
  - intros x y Hxy.
    pose proof (call_range self H1 H2 x) as Rx.
    pose proof (call_range self H1 H2 y) as Ry.
    destruct (Rlt_dec x (Mpl.vmin self)); [rewrite (call_below self H1 H2 x) by lra; lra |].
    destruct (Rlt_dec (Mpl.vmax self) y); [rewrite (call_above self H1 H2 y) by lra; lra |].
    destruct (Rle_dec y (Mpl.midpoint self)).
    + rewrite (Hlow x), (Hlow y) by lra.
      pose proof (frac_mono (x - Mpl.vmin self) (y - Mpl.vmin self)
                    (Mpl.midpoint self - Mpl.vmin self)). lra.
    + destruct (Rle_dec x (Mpl.midpoint self)).
      * rewrite (Hlow x), (Hup y) by lra.
        pose proof (frac_unit (x - Mpl.vmin self) (Mpl.midpoint self - Mpl.vmin self)).
        pose proof (frac_unit (y - Mpl.midpoint self) (Mpl.vmax self - Mpl.midpoint self)).
        lra.
      * rewrite (Hup x), (Hup y) by lra.
        pose proof (frac_mono (x - Mpl.midpoint self) (y - Mpl.midpoint self)
                      (Mpl.vmax self - Mpl.midpoint self)). lra.
Qed.

Lemma midpoint_normalize_piecewise_linear_witness :
  let self := {| Mpl.vmin := -1; Mpl.vmax := 3; Mpl.midpoint := 0 |} in
  Mpl.call self (-1) = 0 /\ Mpl.call self 0 = 0.5 /\ Mpl.call self 3 = 1.
Proof.
  intros self.
  destruct (midpoint_normalize_piecewise_linear self) as (A & B & C & _);
    [simpl; lra | simpl; lra |].
  exact (conj A (conj B C)).
Defined.

(** ** Bounds of evenly spaced points *)

Lemma uniform_length (p0 d : R) (n : nat) : length (uniform p0 d n) = n.
Proof. unfold uniform; rewrite length_map, length_seq; reflexivity. Qed.

Lemma np_diff_uniform_from (p0 d : R) (n : nat) :
  forall s, np_diff (map (fun i => p0 + INR i * d) (seq s n)) = repeat d (n - 1).
Proof.
  induction n as [| n IH]; intros s; [reflexivity |].
  destruct n as [| n]; [reflexivity |].
  specialize (IH (S s)).
  change (seq s (S (S n))) with (s :: seq (S s) (S n)).
  cbn [map]. change (seq (S s) (S n)) with (S s :: seq (S (S s)) n) in *.
  cbn [map] in *. cbn [np_diff]. cbn [np_diff] in IH.
  replace (S (S n) - 1)%nat with (S n) by lia.
  replace (S n - 1)%nat with n in IH by lia.
  cbn [repeat]. f_equal.
  - rewrite S_INR; ring.
  - destruct n as [| n]; [reflexivity |].
    exact IH.
Qed.

Lemma np_diff_uniform (p0 d : R) (n : nat) :
  np_diff (uniform p0 d n) = repeat d (n - 1).
Proof. apply np_diff_uniform_from. Qed.

Lemma last_repeat (d : R) (n : nat) : last (repeat d (S n)) 0 = d.
Proof.
  induction n as [| n IH]; [reflexivity |].
  change (repeat d (S (S n))) with (d :: repeat d (S n)).
  change (repeat d (S n)) with (d :: repeat d n) in *.
  exact IH.
Qed.

Lemma combine_repeat {A} (f : R * R -> A) (d : R) (pts : list R) :
  map f (combine pts (repeat d (length pts))) = map (fun p => f (p, d)) pts.
Proof. induction pts as [| p pts IH]; simpl; [| rewrite IH]; reflexivity. Qed.

Lemma combine_map_same {A B} (f : R -> A) (g : R -> B) (pts : list R) :
  combine (map f pts) (map g pts) = map (fun p => (f p, g p)) pts.
Proof. induction pts as [| p pts IH]; simpl; [| rewrite IH]; reflexivity. Qed.

Lemma np_clip_inside (lo hi x : R) : lo <= x <= hi -> np_clip lo hi x = x.
Proof.
  intros H; unfold np_clip.
  rewrite Rltb_false by lra; rewrite Rltb_false by lra; reflexivity.
Qed.

Lemma guess_bounds_uniform (coord_name : string) (p0 d : R) (n : nat)
    (b : option (list (R * R))) :
  (2 <= n)%nat ->
  clear_of_poles coord_name p0 d n ->
  guess_bounds {| standard_name := coord_name; points := uniform p0 d n; bounds := b |}
  = Ok (midpoint_bounds (uniform p0 d n) d).
Proof.
  intros Hn Hclear; unfold guess_bounds; cbn [points standard_name].
  rewrite uniform_length.
  replace (n <? 2)%nat with false by (symmetry; apply Nat.ltb_ge; exact Hn).
  rewrite np_diff_uniform.
  destruct n as [| [| m]]; try lia.
  replace (S (S m) - 1)%nat with (S m) by lia.
  rewrite last_repeat; cbn [repeat hd tl].
  assert (E1 : removelast (d :: (d :: repeat d m) ++ [d]) = repeat d (length (uniform p0 d (S (S m))))).
  { rewrite uniform_length.
    change (d :: (d :: repeat d m) ++ [d]) with ((d :: d :: repeat d m) ++ [d]).
    rewrite removelast_last; reflexivity. }
  assert (E2 : (d :: repeat d m) ++ [d] = repeat d (length (uniform p0 d (S (S m))))).
  { rewrite uniform_length.
    change ((d :: repeat d m) ++ [d]) with (repeat d (S m) ++ [d]).
    rewrite <- repeat_cons; reflexivity. }
  rewrite E1, E2, !combine_repeat, combine_map_same; cbn [fst snd].
  assert (E3 : map (fun p : R => (p - d * 0.5, p + d * (1 - 0.5))) (uniform p0 d (S (S m)))
               = midpoint_bounds (uniform p0 d (S (S m))) d).
  { unfold midpoint_bounds; apply map_ext; intros p; f_equal; lra. }
  rewrite E3.
  destruct (is_latitude coord_name) eqn:Elat; [| reflexivity].
  destruct (forallb _ _); [| reflexivity].
  cbn [andb]; f_equal.
  unfold midpoint_bounds; rewrite map_map; apply map_ext_in; intros p Hp.
  cbn [fst snd].
  destruct (Hclear Elat p Hp) as [Hlo Hhi].
  rewrite !np_clip_inside by lra; reflexivity.
Qed.

Lemma bounds_or_guess_uniform (coord_name : string) (p0 d : R) (n : nat)
    (with_bounds : bool) :
  (2 <= n)%nat ->
  clear_of_poles coord_name p0 d n ->
  bounds_or_guess (uniform_coord coord_name p0 d n with_bounds)
  = Ok (midpoint_bounds (uniform p0 d n) d).
Proof.
  intros Hn Hclear; unfold bounds_or_guess, uniform_coord; cbn [bounds].
  destruct with_bounds; [reflexivity |].
  apply guess_bounds_uniform; assumption.
Qed.

Lemma widths_midpoint_bounds (pts : list R) (d : R) (i : nat) :
  (i < length pts)%nat -> nth i (widths (midpoint_bounds pts d)) 0 = d.
Proof.
  unfold widths, midpoint_bounds; rewrite map_map; cbn [fst snd].
  revert i; induction pts as [| p pts IH]; simpl; intros i Hi; [lia |].
  destruct i as [| i]; [lra | apply IH; lia].
Qed.

Lemma widths_length (pts : list R) (d : R) :
  length (widths (midpoint_bounds pts d)) = length pts.
Proof. unfold widths, midpoint_bounds; rewrite !length_map; reflexivity. Qed.

(** ** Areas on a uniform grid *)

Lemma all_bounds_uniform_slice (name0 : string) (p0 d0 : R) (n0 : nat)
    (name1 : string) (p1 d1 : R) (n1 : nat) (with_bounds : bool) :
  (2 <= n0)%nat -> (2 <= n1)%nat ->
  clear_of_poles name0 p0 d0 n0 ->
  clear_of_poles name1 p1 d1 n1 ->
  all_bounds [uniform_coord name0 p0 d0 n0 with_bounds;
              uniform_coord name1 p1 d1 n1 with_bounds]
  = Ok [midpoint_bounds (uniform p0 d0 n0) d0; midpoint_bounds (uniform p1 d1 n1) d1].
Proof.
  intros H0 H1 C0 C1; cbn [all_bounds].
  rewrite !bounds_or_guess_uniform by assumption; reflexivity.
Qed.

Lemma clear_of_poles_other (coord_name : string) (p0 d : R) (n : nat) :
  is_latitude coord_name = false -> clear_of_poles coord_name p0 d n.
Proof. intros E H; congruence. Qed.

Lemma clear_of_poles_small : clear_of_poles "latitude" 0 1 2.
Proof.
  intros _ p Hp; unfold uniform in Hp; simpl in Hp.
  destruct Hp as [<- | [<- | []]]; lra.
Qed.

(** C2, the claim as written fails: on a one-degree grid at the equator and
    a radius of 180 the cell area is [PI], where the claimed
    [R^2 (PI/180)^2 dlon dlat cos(lat)] is [PI^2], more than 1 away. *)
Lemma area_squared_radius_counterexample :
  exists area,
    vertical_cross_section_area
      (Some (uniform_slice "latitude" 0 1 2 "longitude" 0 1 2 [] (fun _ => 0) false))
      180 = Ok area
    /\ values area [0%nat; 0%nat] = PI
    /\ Rabs (values area [0%nat; 0%nat]
             - 180 * 180 * ((PI / 180) * (PI / 180)) * 1 * 1 * cos (0 * (PI / 180)))
       > 1.
Proof.
  unfold vertical_cross_section_area, uniform_slice, uniform_coord, uniform,
    guess_bounds, coord_axis_Y.
  cbn; repeat (Reval; Rstep).
  eexists; split; [reflexivity |]; cbn [values nth widths map fst snd].
  match goal with
  | |- ?x = PI /\ _ => assert (E : x = PI)
  end.
  { replace ((0 + 0 * 1) * (PI / 180)) with 0 by ring. rewrite cos_0; lra. }
  rewrite E; split; [reflexivity |].
  rewrite Rmult_0_l, cos_0.
  pose proof PI2_1 as Hpi.
  replace (PI - 180 * 180 * (PI / 180 * (PI / 180)) * 1 * 1 * 1) with (- (PI * PI - PI))
    by field.
  rewrite Rabs_Ropp, Rabs_pos_eq; nra.
Qed.

(** C2, amended: on a uniform latitude/longitude grid with spacings [dlat]
    and [dlon] in degrees, whose latitude cells stay within the poles, and a
    radius [R], with bounds given or guessed, every cell gets the area
    [R * (PI/180) * dlon * dlat * cos(lat0)], where [lat0] is the first
    latitude of the grid: one factor of [R * PI/180], and the cosine of the
    first row for every row. *)
Theorem area_on_uniform_latlon_grid (lat0 dlat : R) (nlat : nat)
    (lon0 dlon : R) (nlon : nat) (v : list nat -> R) (r_planet : R)
    (with_bounds : bool) :
  (2 <= nlat)%nat -> (2 <= nlon)%nat ->
  clear_of_poles "latitude" lat0 dlat nlat ->
  exists area,
    vertical_cross_section_area
      (Some (uniform_slice "latitude" lat0 dlat nlat "longitude" lon0 dlon nlon []
               v with_bounds)) r_planet = Ok area
    /\ forall i j, (i < nlat)%nat -> (j < nlon)%nat ->
         values area [i; j]
         = r_planet * (PI / 180) * dlon * dlat * cos (lat0 * (PI / 180)).
Proof.
  intros H0 H1 C0.
  assert (C1 : clear_of_poles "longitude" lon0 dlon nlon)
    by (apply clear_of_poles_other; reflexivity).
  unfold vertical_cross_section_area, uniform_slice; cbn [dim_coords scalar_coords].
  rewrite all_bounds_uniform_slice by assumption.
  unfold coord_axis_Y, uniform_coord; cbn [dim_coords scalar_coords map app
    standard_name points length nth].
  change (guess_coord_axis "longitude") with (Some AxisX).
  cbn [filter fst snd rbind nth].
  change (is_Y "latitude") with true; change (is_Y "longitude") with false.
  cbv iota; cbn [snd rbind].
  rewrite !widths_length, !uniform_length, !Nat.eqb_refl.
  destruct nlat as [| nlat']; [lia |].
  unfold uniform at 1; cbn [seq map rbind andb].
  eexists; split; [reflexivity |].
  intros i j Hi Hj; cbn [values].
  rewrite !widths_midpoint_bounds by (rewrite uniform_length; assumption).
  unfold deg2rad; simpl INR.
  replace (lat0 + 0 * dlat) with lat0 by ring.
  ring.
Qed.

Lemma area_on_uniform_latlon_grid_witness :
  exists area,
    vertical_cross_section_area
      (Some (uniform_slice "latitude" 0 1 2 "longitude" 0 1 2 [] (fun _ => 0) false))
      6371000 = Ok area
    /\ forall i j, (i < 2)%nat -> (j < 2)%nat ->
         values area [i; j] = 6371000 * (PI / 180) * 1 * 1 * cos (0 * (PI / 180)).
Proof.
  apply (area_on_uniform_latlon_grid 0 1 2 0 1 2 (fun _ => 0) 6371000 false);
    [lia | lia | exact clear_of_poles_small].
Defined.

(** ** A coordinate with a single point *)

Lemma bounds_or_guess_single (c : Coord) :
  length (points c) = 1%nat -> bounds c = None ->
  bounds_or_guess c = Raise at_area ValueError.
Proof.
  intros Hlen Hb; unfold bounds_or_guess, guess_bounds; rewrite Hb, Hlen; reflexivity.
Qed.

Lemma bounds_or_guess_Raise (c : Coord) (s : site) (e : exn) :
  bounds_or_guess c = Raise s e -> s = at_area.
Proof.
  unfold bounds_or_guess, guess_bounds.
  destruct (bounds c); [discriminate |].
  destruct (length (points c) <? 2)%nat; [intros H; inversion H; reflexivity |].
  destruct (_ && _); discriminate.
Qed.

Lemma all_bounds_single (cs : list Coord) (c : Coord) :
  In c cs -> length (points c) = 1%nat -> bounds c = None ->
  exists e, all_bounds cs = Raise at_area e.
Proof.
  intros Hin Hlen Hb; induction cs as [| c' cs IH]; [destruct Hin |].
  cbn [all_bounds].
  destruct (bounds_or_guess c') as [b | s e] eqn:E.
  - destruct Hin as [-> | Hin];
      [rewrite (bounds_or_guess_single c Hlen Hb) in E; discriminate |].
    destruct (IH Hin) as [e He]; cbn [rbind]; rewrite He; cbn [rbind]; eauto.
  - apply bounds_or_guess_Raise in E; subst s; cbn [rbind]; eauto.
Qed.

(** C3, the claim as written fails: a slice with a single level and no
    bounds gets no areas, the call ends in the error of the bounds guess. *)
Lemma single_point_counterexample :
  length (points (nth 0 (dim_coords (ex_one_level None))
                    {| standard_name := ""; points := []; bounds := None |})) = 1%nat
  /\ vertical_cross_section_area (Some (ex_one_level None)) 180 = Raise at_area ValueError.
Proof. split; reflexivity. Qed.

(** C3, amended: for an input in which a dimension coordinate has exactly
    one point and no bounds of its own, the call fails: no bounds are guessed
    for a single point and no area, zero or other, is returned. *)
Theorem single_point_without_bounds_fails (cube2d : Cube) (r_planet : R) (c : Coord) :
  In c (dim_coords cube2d) ->
  length (points c) = 1%nat ->
  bounds c = None ->
  exists e, vertical_cross_section_area (Some cube2d) r_planet = Raise at_area e.
Proof.
  intros Hin Hlen Hb; unfold vertical_cross_section_area.
  destruct (dim_coords cube2d) as [| c0 [| c1 rest]] eqn:Edims; eauto.
  destruct (all_bounds_single _ c Hin Hlen Hb) as [e He].
  destruct (guess_coord_axis (standard_name c1)) as [[|] |]; cbn [rbind].
  - destruct (coord_axis_Y cube2d) as [[| y0 ys] | s e'] eqn:EY; cbn [rbind]; eauto.
    + rewrite He; cbn [rbind]; eauto.
    + unfold coord_axis_Y in EY.
      destruct (filter _ _) as [| ? [| ? ?]]; inversion EY; eauto.
  - rewrite He; cbn [rbind]; eauto.
  - rewrite He; cbn [rbind]; eauto.
Qed.

Lemma single_point_without_bounds_fails_witness :
  exists e, vertical_cross_section_area (Some (ex_one_level None)) 180 = Raise at_area e.
Proof.
  apply (single_point_without_bounds_fails (ex_one_level None) 180
           {| standard_name := "height"; points := [5]; bounds := None |});
    [simpl; auto | reflexivity | reflexivity].
Defined.

(** ** Bounds given or guessed *)

(** C8, the claim as written fails: for latitudes from pole to pole the
    guessed bounds are clipped at the poles, and the first row of cells is
    half as large as with the midpoint bounds given; and for a single level
    there are areas with bounds given and an error without. *)
Lemma bounds_invariance_counterexample :
  (exists given guessed,
     vertical_cross_section_area
       (Some (ex_pole_to_pole (Some (midpoint_bounds [-90; 0; 90] 90)))) 180 = Ok given
     /\ vertical_cross_section_area (Some (ex_pole_to_pole None)) 180 = Ok guessed
     /\ values given [0%nat; 0%nat] = 90 * PI
     /\ values guessed [0%nat; 0%nat] = 45 * PI
     /\ values given [0%nat; 0%nat] <> values guessed [0%nat; 0%nat])
  /\ (exists given,
        vertical_cross_section_area
          (Some (ex_one_level (Some (midpoint_bounds [5] 1)))) 180 = Ok given
        /\ vertical_cross_section_area (Some (ex_one_level None)) 180
           = Raise at_area ValueError).
Proof.
  split.
  - unfold vertical_cross_section_area, ex_pole_to_pole, guess_bounds.
    cbn; repeat (Reval; Rstep).
    do 2 eexists; split; [reflexivity |]; split; [reflexivity |]; simpl.
    pose proof PI_RGT_0; repeat split; lra.
  - unfold vertical_cross_section_area, ex_one_level, guess_bounds.
    cbn; repeat (Reval; Rstep).
    eexists; split; reflexivity.
Qed.

(** C8, amended: for a slice on two coordinates with evenly spaced points,
    at least two each, whose latitude cells stay within the poles, the call
    gives the same result whether the coordinates carry the midpoint bounds
    or none. *)
Theorem bounds_given_or_guessed (name0 : string) (p0 d0 : R) (n0 : nat)
    (name1 : string) (p1 d1 : R) (n1 : nat) (scal : list (string * R))
    (v : list nat -> R) (r_planet : R) :
  (2 <= n0)%nat -> (2 <= n1)%nat ->
  clear_of_poles name0 p0 d0 n0 ->
  clear_of_poles name1 p1 d1 n1 ->
  vertical_cross_section_area
    (Some (uniform_slice name0 p0 d0 n0 name1 p1 d1 n1 scal v true)) r_planet
  = vertical_cross_section_area
      (Some (uniform_slice name0 p0 d0 n0 name1 p1 d1 n1 scal v false)) r_planet.
Proof.
  intros H0 H1 C0 C1.
  unfold vertical_cross_section_area, uniform_slice; cbn [dim_coords scalar_coords].
  rewrite !all_bounds_uniform_slice by assumption.
  reflexivity.
Qed.

Lemma ex_height_latitude_area :
  exists area,
    vertical_cross_section_area
      (Some (uniform_slice "height" 0 1 2 "latitude" 0 1 2 [] (fun _ => 0) false)) 180
    = Ok area
    /\ values area [0%nat; 0%nat] = PI.
Proof.
  unfold vertical_cross_section_area, uniform_slice, uniform_coord, uniform,
    guess_bounds.
  cbn; repeat (Reval; Rstep).
  eexists; split; [reflexivity |]; cbn [values nth widths map fst snd]; lra.
Qed.

Lemma bounds_given_or_guessed_witness :
  exists area,
    vertical_cross_section_area
      (Some (uniform_slice "height" 0 1 2 "latitude" 0 1 2 [] (fun _ => 0) false)) 180
    = Ok area
    /\ vertical_cross_section_area
         (Some (uniform_slice "height" 0 1 2 "latitude" 0 1 2 [] (fun _ => 0) true)) 180
       = Ok area
    /\ values area [0%nat; 0%nat] = PI.
Proof.
  destruct ex_height_latitude_area as (area & Harea & Hcell).
  exists area; split; [exact Harea |]; split; [| exact Hcell].
  rewrite (bounds_given_or_guessed "height" 0 1 2 "latitude" 0 1 2 [] (fun _ => 0) 180);
    [exact Harea | lia | lia | apply clear_of_poles_other; reflexivity
    | exact clear_of_poles_small].
Defined.

(** ** The monad of [net_horizontal_flux_to_region] *)

Lemma rbind_Ok {A B} (m : result A) (k : A -> result B) (b : B) :
  rbind m k = Ok b -> exists a, m = Ok a /\ k a = Ok b.
Proof. destruct m as [a | s e]; simpl; intros H; [eauto | discriminate]. Qed.

Lemma bind_Ok {A B} (m : M A) (k : A -> M B) (w : list warning) (b : B) :
  bind m k = (w, Ok b) ->
  exists w1 a w2, m = (w1, Ok a) /\ k a = (w2, Ok b) /\ w = w1 ++ w2.
Proof.
  destruct m as [w1 [a | s e]]; simpl; [| discriminate].
  destruct (k a) as [w2 r] eqn:E; intros H; inversion H; subst.
  exists w1, a, w2; auto.
Qed.

Lemma bind_lift_snd {A B} (m : M A) (k : A -> result B) :
  snd (bind m (fun a => lift (k a))) = rbind (snd m) k.
Proof. destruct m as [w [a | s e]]; reflexivity. Qed.

Lemma bind_lift_fst {A B} (m : M A) (k : A -> result B) :
  fst (bind m (fun a => lift (k a))) = fst m.
Proof. destruct m as [w [a | s e]]; simpl; [apply app_nil_r | reflexivity]. Qed.

Lemma for_each_Ok {A B} (f : A -> M B) (items : list A) :
  forall w bs, for_each f items = (w, Ok bs) ->
  Forall2 (fun it b => snd (f it) = Ok b) items bs.
Proof.
  induction items as [| it rest IH]; simpl; intros w bs H.
  - inversion H; constructor.
  - apply bind_Ok in H; destruct H as (w1 & b & w2 & Hf & Hk & _).
    apply bind_Ok in Hk; destruct Hk as (w3 & bs' & w4 & Hrest & Hret & _).
    inversion Hret; subst. constructor.
    + rewrite Hf; reflexivity.
    + eapply IH; eassumption.
Qed.

Lemma Forall2_In_l {A B} (P : A -> B -> Prop) (xs : list A) (ys : list B) (x : A) :
  Forall2 P xs ys -> In x xs -> exists y, P x y.
Proof.
  induction 1 as [| a b xs ys Hab _ IH]; intros Hin; [destruct Hin |].
  destruct Hin as [<- | Hin]; eauto.
Qed.

Lemma for_each_Raise {A B} (f : A -> M B) (pre post : list A) (it : A)
    (s : site) (e : exn) :
  (forall x, In x pre -> exists b, snd (f x) = Ok b) ->
  snd (f it) = Raise s e ->
  snd (for_each f (pre ++ it :: post)) = Raise s e.
Proof.
  induction pre as [| x pre IH]; simpl; intros Hpre Hit.
  - destruct (f it) as [w r]; simpl in Hit; subst r; reflexivity.
  - destruct (Hpre x (or_introl eq_refl)) as [b Hb].
    destruct (f x) as [w r]; simpl in Hb; subst r; simpl.
    specialize (IH (fun y Hy => Hpre y (or_intror Hy)) Hit).
    destruct (for_each f (pre ++ it :: post)) as [w' r']; simpl in IH; subst r'.
    reflexivity.
Qed.

(** The four fluxes the net result is made of. *)
Lemma net_flux_inv (scalar_cube : Field) (bx : box) (u v : Field) (r_planet : R)
    (vc : option Constraint) (w : list warning) (res : FluxResult) :
  net_horizontal_flux_to_region scalar_cube bx u v r_planet vc = (w, Ok res) ->
  exists f0 f1 f2 f3 rest,
    Forall2 (fun it b => snd (boundary_flux scalar_cube bx u v r_planet vc it) = Ok b)
      bx (f0 :: f1 :: f2 :: f3 :: rest)
    /\ flux res = (f0 - f1) + (f2 - f3).
Proof.
  unfold net_horizontal_flux_to_region; intros H.
  apply bind_Ok in H; destruct H as (w1 & fs & w2 & Hloop & Hnet & _).
  apply for_each_Ok in Hloop.
  destruct fs as [| f0 [| f1 [| f2 [| f3 rest]]]]; try discriminate.
  inversion Hnet; subst; simpl.
  exists f0, f1, f2, f3, rest; auto.
Qed.

(** ** Cells of an extract, products and sums *)

Lemma extract_values (cs : Constraint) (f g : Field) :
  extract cs f = Some g ->
  exists sels, forall idx, values g idx = values f (reindex sels idx).
Proof.
  unfold extract.
  destruct (negb _); [discriminate |].
  destruct (negb _); [discriminate |].
  destruct (as_slices cs (axes f)) as [sels |]; [| discriminate].
  intros H; inversion H; subst; simpl. exists sels; reflexivity.
Qed.

Lemma multiply_Ok (a b c : Field) :
  multiply a b = Ok c ->
  axes c = axes a /\ forall idx, values c idx = values a idx * values b idx.
Proof.
  unfold multiply; destruct (same_grid _ _); [| discriminate].
  intros H; inversion H; subst; simpl; auto.
Qed.

Lemma sum_over_zero (shp : list nat) :
  forall v, (forall idx, v idx = 0) -> sum_over shp v = 0.
Proof.
  induction shp as [| n rest IH]; simpl; intros v Hv; [apply Hv |].
  induction (seq 0 n) as [| i l IHl]; simpl; [reflexivity |].
  rewrite IHl, (IH (fun idx => v (i :: idx))) by (intros; apply Hv). lra.
Qed.

Lemma sum_over_ext (shp : list nat) :
  forall v v', (forall idx, v idx = v' idx) -> sum_over shp v = sum_over shp v'.
Proof.
  induction shp as [| n rest IH]; intros v v' H; cbn [sum_over]; [apply H |].
  f_equal; apply map_ext; intros i; apply IH; intros idx; apply H.
Qed.

Lemma sum_over_scale (shp : list nat) (k : R) :
  forall v, sum_over shp (fun idx => k * v idx) = k * sum_over shp v.
Proof.
  induction shp as [| n rest IH]; intros v; cbn [sum_over]; [reflexivity |].
  induction (seq 0 n) as [| i l IHl]; cbn [map fold_right]; [ring |].
  rewrite IHl, (IH (fun idx => v (i :: idx))); ring.
Qed.

(** A pass after its constraint: the product, then the warnings and the sum
    of its reduction. *)
Lemma cross_section_flux_snd (scalar_cube u v : Field) (r_planet : R)
    (this_coord : string) (cs : Constraint) :
  snd (cross_section_flux scalar_cube u v r_planet this_coord cs)
  = (cube <-- cross_section_cube scalar_cube u v r_planet this_coord cs ;;
     Ok (total cube)).
Proof.
  unfold cross_section_flux.
  destruct (cross_section_cube _ _ _ _ _ _) as [cube | s e]; reflexivity.
Qed.

Lemma cross_section_flux_fst (scalar_cube u v : Field) (r_planet : R)
    (this_coord : string) (cs : Constraint) :
  fst (cross_section_flux scalar_cube u v r_planet this_coord cs)
  = match cross_section_cube scalar_cube u v r_planet this_coord cs with
    | Ok cube => collapsed_warnings cube
    | Raise _ _ => []
    end.
Proof.
  unfold cross_section_flux.
  destruct (cross_section_cube _ _ _ _ _ _) as [cube | s e]; reflexivity.
Qed.

Lemma cross_section_flux_Ok (scalar_cube u v : Field) (r_planet : R)
    (this_coord : string) (cs : Constraint) (f : R) :
  snd (cross_section_flux scalar_cube u v r_planet this_coord cs) = Ok f ->
  exists area wind wx sx ws cube,
    vertical_cross_section_area (Some (cube_of sx)) r_planet = Ok area
    /\ perpendicular_wind_cmpnts u v this_coord = Ok wind
    /\ extract cs wind = Some wx
    /\ extract cs scalar_cube = Some sx
    /\ multiply wx sx = Ok ws
    /\ multiply ws area = Ok cube
    /\ f = total cube.
Proof.
  rewrite cross_section_flux_snd; unfold cross_section_cube; intros H.
  apply rbind_Ok in H; destruct H as (cube & H & Hf).
  apply rbind_Ok in H; destruct H as (area & Harea & H).
  apply rbind_Ok in H; destruct H as (wind & Hwind & H).
  apply rbind_Ok in H; destruct H as (ws & Hws & Hcube).
  unfold multiply_extracted in Hws.
  destruct (extract cs wind) as [wx |] eqn:Ewx; [| discriminate].
  destruct (extract cs scalar_cube) as [sx |] eqn:Esx; [| discriminate].
  inversion Hf; subst f.
  exists area, wind, wx, sx, ws, cube; repeat split; auto.
Qed.

Lemma cross_section_flux_zero_wind (scalar_cube u v : Field) (r_planet : R)
    (this_coord : string) (cs : Constraint) (f : R) :
  (forall idx, values u idx = 0) ->
  (forall idx, values v idx = 0) ->
  snd (cross_section_flux scalar_cube u v r_planet this_coord cs) = Ok f ->
  f = 0.
Proof.
  intros Hu Hv H.
  apply cross_section_flux_Ok in H.
  destruct H as (area & wind & wx & sx & ws & cube
                 & _ & Hwind & Ewx & _ & Hws & Hcube & ->).
  assert (Hw : forall idx, values wind idx = 0).
  { unfold perpendicular_wind_cmpnts in Hwind.
    destruct (String.eqb this_coord "longitude"); [inversion Hwind; subst; exact Hu |].
    destruct (String.eqb this_coord "latitude"); [inversion Hwind; subst; exact Hv |].
    discriminate. }
  apply extract_values in Ewx; destruct Ewx as [sels Hwx].
  apply multiply_Ok in Hws; destruct Hws as [_ Hws].
  apply multiply_Ok in Hcube; destruct Hcube as [_ Hcube].
  apply sum_over_zero; intros idx.
  rewrite Hcube, Hws, Hwx, Hw; ring.
Qed.

Lemma boundary_flux_snd (scalar_cube : Field) (bx : box) (u v : Field)
    (r_planet : R) (vc : option Constraint) (item : string * R) :
  snd (boundary_flux scalar_cube bx u v r_planet vc item)
  = rbind (snd (boundary_constraint scalar_cube bx vc item))
      (fun tc => snd (cross_section_flux scalar_cube u v r_planet (fst tc) (snd tc))).
Proof.
  unfold boundary_flux.
  destruct (boundary_constraint scalar_cube bx vc item) as [w [tc | s e]];
    [| reflexivity].
  cbn [bind snd rbind].
  destruct (cross_section_flux _ _ _ _ _ _); reflexivity.
Qed.

(** The warnings of a pass: those of its constraint, then those of the
    reduction when the pass gets that far. *)
Lemma boundary_flux_fst (scalar_cube : Field) (bx : box) (u v : Field)
    (r_planet : R) (vc : option Constraint) (item : string * R) :
  fst (boundary_flux scalar_cube bx u v r_planet vc item)
  = fst (boundary_constraint scalar_cube bx vc item)
    ++ match snd (boundary_constraint scalar_cube bx vc item) with
       | Ok tc => fst (cross_section_flux scalar_cube u v r_planet (fst tc) (snd tc))
       | Raise _ _ => []
       end.
Proof.
  unfold boundary_flux.
  destruct (boundary_constraint scalar_cube bx vc item) as [w [tc | s e]];
    cbn [bind fst snd]; [| symmetry; apply app_nil_r].
  destruct (cross_section_flux _ _ _ _ _ _); reflexivity.
Qed.

Lemma boundary_flux_zero_wind (scalar_cube : Field) (bx : box) (u v : Field)
    (r_planet : R) (vc : option Constraint) (item : string * R) (f : R) :
  (forall idx, values u idx = 0) ->
  (forall idx, values v idx = 0) ->
  snd (boundary_flux scalar_cube bx u v r_planet vc item) = Ok f ->
  f = 0.
Proof.
  intros Hu Hv; rewrite boundary_flux_snd; intros H.
  apply rbind_Ok in H; destruct H as (tc & _ & H); cbv beta in H.
  exact (cross_section_flux_zero_wind _ _ _ _ _ _ _ Hu Hv H).
Qed.

(** ** Running the loop *)

Lemma boundary_flux_eval (scalar_cube : Field) (bx : box) (u v : Field)
    (r_planet : R) (vc : option Constraint) (item : string * R)
    (w w' : list warning) (this_coord : string) (cs : Constraint)
    (res : result R) :
  boundary_constraint scalar_cube bx vc item = (w, Ok (this_coord, cs)) ->
  cross_section_flux scalar_cube u v r_planet this_coord cs = (w', res) ->
  boundary_flux scalar_cube bx u v r_planet vc item = (w ++ w', res).
Proof.
  unfold boundary_flux; intros -> H; cbn [bind fst snd]; rewrite H; reflexivity.
Qed.

Lemma net_flux_eval (scalar_cube : Field) (bx : box) (u v : Field)
    (r_planet : R) (vc : option Constraint) (i0 i1 i2 i3 : string * R)
    (w0 w1 w2 w3 : list warning) (f0 f1 f2 f3 : R) :
  bx = [i0; i1; i2; i3] ->
  boundary_flux scalar_cube bx u v r_planet vc i0 = (w0, Ok f0) ->
  boundary_flux scalar_cube bx u v r_planet vc i1 = (w1, Ok f1) ->
  boundary_flux scalar_cube bx u v r_planet vc i2 = (w2, Ok f2) ->
  boundary_flux scalar_cube bx u v r_planet vc i3 = (w3, Ok f3) ->
  net_horizontal_flux_to_region scalar_cube bx u v r_planet vc
  = (w0 ++ w1 ++ w2 ++ w3,
     Ok {| flux_name :=
             String.append "net_"
               (String.append (field_name scalar_cube) "_horizontal_flux_to_region");
           flux := (f0 - f1) + (f2 - f3) |}).
Proof.
  intros Hbx H0 H1 H2 H3; unfold net_horizontal_flux_to_region.
  rewrite Hbx at 2; simpl for_each.
  rewrite H0, H1, H2, H3; simpl.
  rewrite !app_nil_r; reflexivity.
Qed.

Lemma net_flux_Raise (scalar_cube : Field) (bx : box) (u v : Field)
    (r_planet : R) (vc : option Constraint) (pre post : list (string * R))
    (item : string * R) (s : site) (e : exn) :
  bx = pre ++ item :: post ->
  (forall x, In x pre ->
     exists f, snd (boundary_flux scalar_cube bx u v r_planet vc x) = Ok f) ->
  snd (boundary_flux scalar_cube bx u v r_planet vc item) = Raise s e ->
  snd (net_horizontal_flux_to_region scalar_cube bx u v r_planet vc) = Raise s e.
Proof.
  intros Hbx Hpre Hit; unfold net_horizontal_flux_to_region.
  pose proof (for_each_Raise (boundary_flux scalar_cube bx u v r_planet vc)
                pre post item s e Hpre Hit) as H.
  rewrite <- Hbx in H.
  destruct (for_each _ bx) as [w r]; simpl in H; subst r; reflexivity.
Qed.

(** ** The example fields at work *)

Lemma ex_constraint_lon0 :
  boundary_constraint ex_scalar ex_box None ("longitude0"%string, 0)
  = ([], Ok ("longitude"%string, on_longitude 0 0 1)).
Proof. eval_constraint. Qed.

Lemma ex_constraint_lon1 :
  boundary_constraint ex_scalar ex_box None ("longitude1"%string, 1)
  = ([], Ok ("longitude"%string, on_longitude 1 0 1)).
Proof. eval_constraint. Qed.

Lemma ex_constraint_lat0 :
  boundary_constraint ex_scalar ex_box None ("latitude0"%string, 0)
  = ([], Ok ("latitude"%string, on_latitude 0 0 1)).
Proof. eval_constraint. Qed.

Lemma ex_constraint_lat1 :
  boundary_constraint ex_scalar ex_box None ("latitude1"%string, 1)
  = ([], Ok ("latitude"%string, on_latitude 1 0 1)).
Proof. eval_constraint. Qed.

Lemma ex_section_lon0 (v : Field) :
  cross_section_flux ex_scalar ex_u v 180 "longitude" (on_longitude 0 0 1)
  = (ex_collapsed_at_longitude, Ok 0).
Proof. unfold on_longitude; eval_section; lra. Qed.

Lemma ex_section_lon1 (v : Field) :
  cross_section_flux ex_scalar ex_u v 180 "longitude" (on_longitude 1 0 1)
  = (ex_collapsed_at_longitude, Ok (4 * PI)).
Proof. unfold on_longitude; eval_section; lra. Qed.

Lemma ex_section_lat0 (u : Field) :
  cross_section_flux ex_scalar u ex_v 180 "latitude" (on_latitude 0 0 1)
  = (ex_collapsed_at_latitude, Ok 0).
Proof. unfold on_latitude; eval_section; lra. Qed.

Lemma ex_section_lat1 (u : Field) :
  cross_section_flux ex_scalar u ex_v 180 "latitude" (on_latitude 1 0 1)
  = (ex_collapsed_at_latitude, Ok 0).
Proof. unfold on_latitude; eval_section; lra. Qed.

Lemma ex_section_lon0_calm (u : Field) :
  cross_section_flux ex_scalar ex_v u 180 "longitude" (on_longitude 0 0 1)
  = (ex_collapsed_at_longitude, Ok 0).
Proof. unfold on_longitude; eval_section; lra. Qed.

Lemma ex_section_lon1_calm (u : Field) :
  cross_section_flux ex_scalar ex_v u 180 "longitude" (on_longitude 1 0 1)
  = (ex_collapsed_at_longitude, Ok 0).
Proof. unfold on_longitude; eval_section; lra. Qed.

Lemma ex_net :
  net_horizontal_flux_to_region ex_scalar ex_box ex_u ex_v 180 None
  = (ex_collapsed, Ok {| flux_name := "net_q_horizontal_flux_to_region";
                         flux := (0 - 4 * PI) + (0 - 0) |}).
Proof.
  exact (net_flux_eval ex_scalar ex_box ex_u ex_v 180 None
           ("longitude0"%string, 0) ("longitude1"%string, 1)
           ("latitude0"%string, 0) ("latitude1"%string, 1) _ _ _ _ _ _ _ _
           eq_refl
           (boundary_flux_eval _ _ _ _ _ _ _ _ _ _ _ _ ex_constraint_lon0 (ex_section_lon0 _))
           (boundary_flux_eval _ _ _ _ _ _ _ _ _ _ _ _ ex_constraint_lon1 (ex_section_lon1 _))
           (boundary_flux_eval _ _ _ _ _ _ _ _ _ _ _ _ ex_constraint_lat0 (ex_section_lat0 _))
           (boundary_flux_eval _ _ _ _ _ _ _ _ _ _ _ _ ex_constraint_lat1 (ex_section_lat1 _))).
Qed.

Lemma ex_net_calm :
  net_horizontal_flux_to_region ex_scalar ex_box ex_v ex_v 180 None
  = (ex_collapsed, Ok {| flux_name := "net_q_horizontal_flux_to_region";
                         flux := (0 - 0) + (0 - 0) |}).
Proof.
  exact (net_flux_eval ex_scalar ex_box ex_v ex_v 180 None
           ("longitude0"%string, 0) ("longitude1"%string, 1)
           ("latitude0"%string, 0) ("latitude1"%string, 1) _ _ _ _ _ _ _ _
           eq_refl
           (boundary_flux_eval _ _ _ _ _ _ _ _ _ _ _ _ ex_constraint_lon0 (ex_section_lon0_calm _))
           (boundary_flux_eval _ _ _ _ _ _ _ _ _ _ _ _ ex_constraint_lon1 (ex_section_lon1_calm _))
           (boundary_flux_eval _ _ _ _ _ _ _ _ _ _ _ _ ex_constraint_lat0 (ex_section_lat0 _))
           (boundary_flux_eval _ _ _ _ _ _ _ _ _ _ _ _ ex_constraint_lat1 (ex_section_lat1 _))).
Qed.

(** ** The sign of the net flux *)

(** C1, the claim as written fails: with an eastward wind of 1 and a scalar
    that is 0 on the western and 1 on the eastern boundary, the flux at
    [longitude1] is [4 * PI], the three others are 0, and the call returns
    [- (4 * PI)], not [(4 * PI - 0) + (0 - 0)]. *)
Lemma net_flux_outward_counterexample :
  snd (boundary_flux ex_scalar ex_box ex_u ex_v 180 None ("longitude0"%string, 0)) = Ok 0
  /\ snd (boundary_flux ex_scalar ex_box ex_u ex_v 180 None ("longitude1"%string, 1))
     = Ok (4 * PI)
  /\ snd (boundary_flux ex_scalar ex_box ex_u ex_v 180 None ("latitude0"%string, 0)) = Ok 0
  /\ snd (boundary_flux ex_scalar ex_box ex_u ex_v 180 None ("latitude1"%string, 1)) = Ok 0
  /\ exists res,
       snd (net_horizontal_flux_to_region ex_scalar ex_box ex_u ex_v 180 None) = Ok res
       /\ flux res = - (4 * PI)
       /\ flux res <> (4 * PI - 0) + (0 - 0).
Proof.
  rewrite (boundary_flux_eval _ _ _ _ _ _ _ _ _ _ _ _ ex_constraint_lon0 (ex_section_lon0 _)).
  rewrite (boundary_flux_eval _ _ _ _ _ _ _ _ _ _ _ _ ex_constraint_lon1 (ex_section_lon1 _)).
  rewrite (boundary_flux_eval _ _ _ _ _ _ _ _ _ _ _ _ ex_constraint_lat0 (ex_section_lat0 _)).
  rewrite (boundary_flux_eval _ _ _ _ _ _ _ _ _ _ _ _ ex_constraint_lat1 (ex_section_lat1 _)).
  rewrite ex_net; simpl.
  repeat split; try reflexivity.
  eexists; split; [reflexivity |]; simpl.
  pose proof PI_RGT_0; split; lra.
Qed.

(** C1, amended: with the keys in the order [longitude0, longitude1,
    latitude0, latitude1], the returned net flux is (flux at [longitude0]
    minus flux at [longitude1]) plus (flux at [latitude0] minus flux at
    [latitude1]): what enters through the western and southern boundaries
    minus what leaves through the eastern and northern ones. *)
Theorem net_flux_is_inflow_minus_outflow (scalar_cube : Field)
    (lon0 lon1 lat0 lat1 : R) (u v : Field) (r_planet : R)
    (vc : option Constraint) (w : list warning) (res : FluxResult) :
  net_horizontal_flux_to_region scalar_cube (latlon_box lon0 lon1 lat0 lat1)
    u v r_planet vc = (w, Ok res) ->
  exists flon0 flon1 flat0 flat1,
    snd (boundary_flux scalar_cube (latlon_box lon0 lon1 lat0 lat1) u v r_planet vc
           ("longitude0"%string, lon0)) = Ok flon0
    /\ snd (boundary_flux scalar_cube (latlon_box lon0 lon1 lat0 lat1) u v r_planet vc
              ("longitude1"%string, lon1)) = Ok flon1
    /\ snd (boundary_flux scalar_cube (latlon_box lon0 lon1 lat0 lat1) u v r_planet vc
              ("latitude0"%string, lat0)) = Ok flat0
    /\ snd (boundary_flux scalar_cube (latlon_box lon0 lon1 lat0 lat1) u v r_planet vc
              ("latitude1"%string, lat1)) = Ok flat1
    /\ flux res = (flon0 - flon1) + (flat0 - flat1).
Proof.
  intros H; apply net_flux_inv in H.
  destruct H as (f0 & f1 & f2 & f3 & rest & Hall & Hflux).
  unfold latlon_box in Hall at 2.
  inversion Hall as [| ? ? ? ? H0 Hall1]; subst; clear Hall.
  inversion Hall1 as [| ? ? ? ? H1 Hall2]; subst; clear Hall1.
  inversion Hall2 as [| ? ? ? ? H2 Hall3]; subst; clear Hall2.
  inversion Hall3 as [| ? ? ? ? H3 Hall4]; subst; clear Hall3.
  exists f0, f1, f2, f3; auto.
Qed.

Lemma net_flux_is_inflow_minus_outflow_witness :
  exists flon0 flon1 flat0 flat1,
    snd (boundary_flux ex_scalar ex_box ex_u ex_v 180 None ("longitude0"%string, 0))
    = Ok flon0
    /\ snd (boundary_flux ex_scalar ex_box ex_u ex_v 180 None ("longitude1"%string, 1))
       = Ok flon1
    /\ snd (boundary_flux ex_scalar ex_box ex_u ex_v 180 None ("latitude0"%string, 0))
       = Ok flat0
    /\ snd (boundary_flux ex_scalar ex_box ex_u ex_v 180 None ("latitude1"%string, 1))
       = Ok flat1
    /\ (0 - 4 * PI) + (0 - 0) = (flon0 - flon1) + (flat0 - flat1).
Proof.
  exact (net_flux_is_inflow_minus_outflow ex_scalar 0 1 0 1 ex_u ex_v 180 None _ _
           ex_net).
Defined.

(** ** A box closed on itself in longitude *)






(** ** A boundary that selects nothing *)

Lemma cross_section_flux_empty (scalar_cube u v : Field) (r_planet : R)
    (this_coord : string) (cs : Constraint) :
  extract cs scalar_cube = None ->
  snd (cross_section_flux scalar_cube u v r_planet this_coord cs)
  = Raise at_area AttributeError.
Proof.
  unfold cross_section_flux, cross_section_cube; intros ->; reflexivity.
Qed.

Lemma ex_between_constraint_lon0 :
  boundary_constraint ex_scalar ex_box_between None ("longitude0"%string, 0.2)
  = ([], Ok ("longitude"%string, on_longitude 0 0 1)).
Proof. eval_constraint. Qed.

Lemma ex_between_constraint_lon1 :
  boundary_constraint ex_scalar ex_box_between None ("longitude1"%string, 0.8)
  = ([], Ok ("longitude"%string, on_longitude 1 0 1)).
Proof. eval_constraint. Qed.

Lemma ex_between_constraint_lat0 :
  boundary_constraint ex_scalar ex_box_between None ("latitude0"%string, 0)
  = ([], Ok ("latitude"%string, on_latitude 0 0.2 0.8)).
Proof. eval_constraint. Qed.

Lemma ex_between_empty : extract (on_latitude 0 0.2 0.8) ex_scalar = None.
Proof. unfold on_latitude, extract; repeat (Reval; Rstep); reflexivity. Qed.

Lemma ex_between_pre (x : string * R) :
  In x [("longitude0"%string, 0.2); ("longitude1"%string, 0.8)] ->
  exists f, snd (boundary_flux ex_scalar ex_box_between ex_u ex_v 180 None x) = Ok f.
Proof.
  intros [<- | [<- | []]].
  - rewrite (boundary_flux_eval _ _ _ _ _ _ _ _ _ _ _ _
               ex_between_constraint_lon0 (ex_section_lon0 _)); simpl; eauto.
  - rewrite (boundary_flux_eval _ _ _ _ _ _ _ _ _ _ _ _
               ex_between_constraint_lon1 (ex_section_lon1 _)); simpl; eauto.
Qed.

(** C4, the claim as written fails: in this box the two longitude
    boundaries are extracted and the first latitude boundary selects
    nothing; the call ends in the attribute error of the area step, which is
    not an error of the reduction. *)
Lemma empty_selection_counterexample :
  extract (on_latitude 0 0.2 0.8) ex_scalar = None
  /\ boundary_constraint ex_scalar ex_box_between None ("latitude0"%string, 0)
     = ([], Ok ("latitude"%string, on_latitude 0 0.2 0.8))
  /\ snd (net_horizontal_flux_to_region ex_scalar ex_box_between ex_u ex_v 180 None)
     = Raise at_area AttributeError
  /\ forall e,
       snd (net_horizontal_flux_to_region ex_scalar ex_box_between ex_u ex_v 180 None)
       <> Raise at_collapsed e.
Proof.
  assert (H : snd (net_horizontal_flux_to_region ex_scalar ex_box_between ex_u ex_v
                     180 None) = Raise at_area AttributeError).
  { apply (net_flux_Raise ex_scalar ex_box_between ex_u ex_v 180 None
             [("longitude0"%string, 0.2); ("longitude1"%string, 0.8)]
             [("latitude1"%string, 1)] ("latitude0"%string, 0)).
    - reflexivity.
    - exact ex_between_pre.
    - rewrite boundary_flux_snd, ex_between_constraint_lat0; simpl.
      apply cross_section_flux_empty, ex_between_empty. }
  split; [exact ex_between_empty |].
  split; [exact ex_between_constraint_lat0 |].
  split; [exact H |].
  intros e; rewrite H; discriminate.
Qed.

(** C4, amended: when the selection of a boundary is empty the call fails
    and returns no result, whatever the other boundaries give; the failure
    is the attribute error raised when the area step receives the empty
    extraction, at the first such boundary once the boundaries before it have
    gone through; no zero stands in for the missing flux. *)
Theorem empty_selection_fails_in_area_step (scalar_cube : Field) (bx : box)
    (u v : Field) (r_planet : R) (vc : option Constraint)
    (item : string * R) (w : list warning) (tc : string * Constraint) :
  In item bx ->
  boundary_constraint scalar_cube bx vc item = (w, Ok tc) ->
  extract (snd tc) scalar_cube = None ->
  (forall res,
     snd (net_horizontal_flux_to_region scalar_cube bx u v r_planet vc) <> Ok res)
  /\ (forall pre post,
        bx = pre ++ item :: post ->
        (forall x, In x pre ->
           exists f, snd (boundary_flux scalar_cube bx u v r_planet vc x) = Ok f) ->
        snd (net_horizontal_flux_to_region scalar_cube bx u v r_planet vc)
        = Raise at_area AttributeError).
Proof.
  intros Hin Hc Hempty.
  assert (Hitem : snd (boundary_flux scalar_cube bx u v r_planet vc item)
                  = Raise at_area AttributeError).
  { rewrite boundary_flux_snd, Hc; simpl.
    apply cross_section_flux_empty; exact Hempty. }
  split.
  - intros res Hres.
    destruct (net_horizontal_flux_to_region scalar_cube bx u v r_planet vc)
      as [w' r] eqn:E; simpl in Hres; subst r.
    apply net_flux_inv in E.
    destruct E as (f0 & f1 & f2 & f3 & rest & Hall & _).
    assert (Hex : exists f, snd (boundary_flux scalar_cube bx u v r_planet vc item) = Ok f).
    { exact (Forall2_In_l _ _ _ _ Hall Hin). }
    destruct Hex as [f Hf]; rewrite Hitem in Hf; discriminate.
  - intros pre post Hbx Hpre.
    exact (net_flux_Raise _ _ _ _ _ _ _ _ _ _ _ Hbx Hpre Hitem).
Qed.

Lemma empty_selection_fails_in_area_step_witness :
  In ("latitude0"%string, 0) ex_box_between
  /\ extract (on_latitude 0 0.2 0.8) ex_scalar = None
  /\ snd (net_horizontal_flux_to_region ex_scalar ex_box_between ex_u ex_v 180 None)
     = Raise at_area AttributeError.
Proof.
  assert (Hin : In ("latitude0"%string, 0) ex_box_between) by (simpl; auto).
  split; [exact Hin |].
  split; [exact ex_between_empty |].
  exact (proj2 (empty_selection_fails_in_area_step ex_scalar ex_box_between ex_u ex_v
                  180 None _ _ _ Hin ex_between_constraint_lat0 ex_between_empty)
           [("longitude0"%string, 0.2); ("longitude1"%string, 0.8)]
           [("latitude1"%string, 1)] eq_refl ex_between_pre).
Defined.

(** ** No wind, no flux *)

Lemma ex_between_pre_calm (x : string * R) :
  In x [("longitude0"%string, 0.2); ("longitude1"%string, 0.8)] ->
  exists f, snd (boundary_flux ex_scalar ex_box_between ex_v ex_v 180 None x) = Ok f.
Proof.
  intros [<- | [<- | []]].
  - rewrite (boundary_flux_eval _ _ _ _ _ _ _ _ _ _ _ _
               ex_between_constraint_lon0 (ex_section_lon0_calm _)); simpl; eauto.
  - rewrite (boundary_flux_eval _ _ _ _ _ _ _ _ _ _ _ _
               ex_between_constraint_lon1 (ex_section_lon1_calm _)); simpl; eauto.
Qed.

Lemma small_in_double_range (x : R) : Rabs x <= 1000 -> Rabs x <= 10 ^ 100.
Proof.
  intros H; apply (Rle_trans _ (10 ^ 3)); [simpl; lra |].
  apply Rle_pow; [lra | lia].
Qed.

Lemma ex_in_double_range : in_double_range ex_scalar 180.
Proof.
  split; [apply small_in_double_range; rewrite Rabs_pos_eq; lra |].
  intros a p Ha Hp; apply small_in_double_range.
  destruct Ha as [<- | [<- | [<- | []]]]; destruct Hp as [<- | [<- | []]];
    rewrite Rabs_pos_eq; lra.
Qed.

(** C9, the claim as written fails: with no wind at all, the call on a box
    whose longitudes lie between those of the grid returns nothing, and so
    not 0: its first latitude boundary selects no cell and the area step
    raises. *)
Lemma zero_wind_counterexample :
  (forall idx, values ex_v idx = 0)
  /\ in_double_range ex_scalar 180
  /\ snd (net_horizontal_flux_to_region ex_scalar ex_box_between ex_v ex_v 180 None)
     = Raise at_area AttributeError
  /\ forall res,
       snd (net_horizontal_flux_to_region ex_scalar ex_box_between ex_v ex_v 180 None)
       <> Ok res.
Proof.
  assert (H : snd (net_horizontal_flux_to_region ex_scalar ex_box_between ex_v ex_v
                     180 None) = Raise at_area AttributeError).
  { apply (net_flux_Raise ex_scalar ex_box_between ex_v ex_v 180 None
             [("longitude0"%string, 0.2); ("longitude1"%string, 0.8)]
             [("latitude1"%string, 1)] ("latitude0"%string, 0)).
    - reflexivity.
    - exact ex_between_pre_calm.
    - rewrite boundary_flux_snd, ex_between_constraint_lat0; simpl.
      apply cross_section_flux_empty, ex_between_empty. }
  split; [intros idx; reflexivity |].
  split; [exact ex_in_double_range |].
  split; [exact H |].
  intros res; rewrite H; discriminate.
Qed.

(** C9, amended: when [u] and [v] are zero everywhere and the call returns,
    every boundary flux is exactly 0 and so is the net flux, whatever the
    scalar field and the box.  The radius and the points of the dimensions
    are taken in a range where no cell area overflows: beyond it the doubles
    of the code can give [0 * inf], which is [nan] and not 0. *)
Theorem zero_wind_zero_net_flux (scalar_cube : Field) (bx : box) (u v : Field)
    (r_planet : R) (vc : option Constraint) (w : list warning) (res : FluxResult) :
  (forall idx, values u idx = 0) ->
  (forall idx, values v idx = 0) ->
  in_double_range scalar_cube r_planet ->
  net_horizontal_flux_to_region scalar_cube bx u v r_planet vc = (w, Ok res) ->
  flux res = 0
  /\ forall item, In item bx ->
       snd (boundary_flux scalar_cube bx u v r_planet vc item) = Ok 0.
Proof.
  intros Hu Hv _ H; apply net_flux_inv in H.
  destruct H as (f0 & f1 & f2 & f3 & rest & Hall & Hflux).
  assert (Hzero : forall f, In f (f0 :: f1 :: f2 :: f3 :: rest) -> f = 0).
  { clear Hflux; induction Hall as [| it f its fs Hf _ IH]; intros g Hg.
    - destruct Hg.
    - destruct Hg as [<- | Hg]; [| exact (IH g Hg)].
      exact (boundary_flux_zero_wind _ _ _ _ _ _ _ _ Hu Hv Hf). }
  split.
  - rewrite Hflux.
    rewrite (Hzero f0), (Hzero f1), (Hzero f2), (Hzero f3) by (simpl; auto 6).
    ring.
  - intros item Hin.
    destruct (Forall2_In_l _ _ _ _ Hall Hin) as [f Hf].
    rewrite Hf; f_equal.
    exact (boundary_flux_zero_wind _ _ _ _ _ _ _ _ Hu Hv Hf).
Qed.

Lemma zero_wind_zero_net_flux_witness :
  (forall idx, values ex_v idx = 0)
  /\ in_double_range ex_scalar 180
  /\ net_horizontal_flux_to_region ex_scalar ex_box ex_v ex_v 180 None
     = (ex_collapsed, Ok {| flux_name := "net_q_horizontal_flux_to_region";
                            flux := (0 - 0) + (0 - 0) |})
  /\ (0 - 0) + (0 - 0) = 0.
Proof.
  split; [intros idx; reflexivity |].
  split; [exact ex_in_double_range |].
  split; [exact ex_net_calm |].
  exact (proj1 (zero_wind_zero_net_flux ex_scalar ex_box ex_v ex_v 180 None _ _
                  (fun _ => eq_refl) (fun _ => eq_refl) ex_in_double_range
                  ex_net_calm)).
Defined.

(** ** The constraint of a boundary *)

Lemma ll_other_inv (key other : string) :
  ll_other key = Ok other ->
  (key = "longitude"%string /\ other = "latitude"%string)
  \/ (key = "latitude"%string /\ other = "longitude"%string).
Proof.
  unfold ll_other.
  destruct (String.eqb key "longitude") eqn:E1.
  - apply String.eqb_eq in E1; intros H; inversion H; auto.
  - destruct (String.eqb key "latitude") eqn:E2; [| discriminate].
    apply String.eqb_eq in E2; intros H; inversion H; auto.
Qed.

Lemma boundary_constraint_unfold (scalar_cube : Field) (bx : box)
    (vc : option Constraint) (key : string) (val : R) (other : string)
    (nearest : R) :
  ll_other (drop_last key) = Ok other ->
  nearest_coord_value scalar_cube (drop_last key) val = Ok nearest ->
  boundary_constraint scalar_cube bx vc (key, val)
  = (snap_warning (drop_last key) nearest val,
     other_min <-- dict_get bx (String.append other "0") ;;
     other_max <-- dict_get bx (String.append other "1") ;;
     Ok (drop_last key,
         ((drop_last key, fun x => Reqb x nearest)
          :: match vc with Some c => c | None => [] end)
         ++ [(other, free_axis_test other_min other_max)])).
Proof.
  intros Hother Hnear; unfold boundary_constraint, snap_warning, free_axis_test.
  rewrite Hother, Hnear; simpl.
  destruct (Rltb 10 (Rabs (nearest - val))); simpl;
    destruct (dict_get bx (String.append other "0")) as [omin | s e]; simpl;
    try reflexivity;
    destruct (dict_get bx (String.append other "1")) as [omax | s' e']; simpl;
    try reflexivity;
    destruct vc as [c |]; destruct (Rleb omin omax); reflexivity.
Qed.

Lemma boundary_constraint_Ok (scalar_cube : Field) (bx : box)
    (vc : option Constraint) (key : string) (val : R) (w : list warning)
    (tc : string * Constraint) :
  boundary_constraint scalar_cube bx vc (key, val) = (w, Ok tc) ->
  exists other nearest other_min other_max,
    ll_other (drop_last key) = Ok other
    /\ nearest_coord_value scalar_cube (drop_last key) val = Ok nearest
    /\ dict_get bx (String.append other "0") = Ok other_min
    /\ dict_get bx (String.append other "1") = Ok other_max
    /\ w = snap_warning (drop_last key) nearest val
    /\ tc = (drop_last key,
             ((drop_last key, fun x => Reqb x nearest)
              :: match vc with Some c => c | None => [] end)
             ++ [(other, free_axis_test other_min other_max)]).
Proof.
  intros H.
  destruct (ll_other (drop_last key)) as [other | s e] eqn:E1;
    [| unfold boundary_constraint in H; rewrite E1 in H; discriminate].
  destruct (nearest_coord_value scalar_cube (drop_last key) val) as [nearest | s e] eqn:E2;
    [| unfold boundary_constraint in H; rewrite E1, E2 in H; discriminate].
  rewrite (boundary_constraint_unfold _ _ _ _ _ _ _ E1 E2) in H.
  destruct (dict_get bx (String.append other "0")) as [omin | s e] eqn:E3;
    [| discriminate].
  destruct (dict_get bx (String.append other "1")) as [omax | s e] eqn:E4;
    [| discriminate].
  simpl in H; inversion H; subst.
  exists other, nearest, omin, omax; repeat split; auto.
Qed.

(** ** Snapping to the grid *)

Lemma fold_nearer (val : R) (ps : list R) :
  forall p,
    let n := fold_left (nearer val) ps p in
    (n = p \/ In n ps)
    /\ Rabs (n - val) <= Rabs (p - val)
    /\ forall q, In q ps -> Rabs (n - val) <= Rabs (q - val).
Proof.
  induction ps as [| a ps IH]; simpl; intros p.
  - repeat split; auto; try lra. intros q [].
  - destruct (IH (nearer val p a)) as (Hin & Hle & Hall).
    assert (Hstep : (nearer val p a = p \/ nearer val p a = a)
                    /\ Rabs (nearer val p a - val) <= Rabs (p - val)
                    /\ Rabs (nearer val p a - val) <= Rabs (a - val)).
    { unfold nearer; destruct (Rltb (Rabs (a - val)) (Rabs (p - val))) eqn:E.
      - apply Rltb_spec in E; repeat split; auto; lra.
      - assert (~ Rabs (a - val) < Rabs (p - val))
          by (intros C; apply Rltb_spec in C; congruence).
        repeat split; auto; lra. }
    destruct Hstep as (Hwho & Hp & Ha).
    repeat split.
    + destruct Hin as [-> | Hin]; [destruct Hwho as [-> | ->] |]; auto.
    + lra.
    + intros q [<- | Hq]; [lra | auto].
Qed.

Lemma nearest_coord_value_Ok (cube : Field) (coord_name : string) (val nearest : R) :
  nearest_coord_value cube coord_name val = Ok nearest ->
  exists pts,
    coord_points cube coord_name = Some pts
    /\ In nearest pts
    /\ forall q, In q pts -> Rabs (nearest - val) <= Rabs (q - val).
Proof.
  unfold nearest_coord_value.
  destruct (coord_points cube coord_name) as [[| p ps] |]; try discriminate.
  intros H; inversion H; subst; clear H.
  destruct (fold_nearer val ps p) as (Hin & Hle & Hall).
  exists (p :: ps); split; [reflexivity |]; split.
  - simpl; destruct Hin; auto.
  - intros q [<- | Hq]; auto.
Qed.


(** ** The warnings of the function among those of a pass *)

Lemma own_warnings_app (ws ws' : list warning) :
  own_warnings (ws ++ ws') = own_warnings ws ++ own_warnings ws'.
Proof. apply filter_app. Qed.

Lemma collapsed_warnings_not_own (cube : Field) :
  own_warnings (collapsed_warnings cube) = [].
Proof.
  unfold collapsed_warnings; rewrite own_warnings_app.
  assert (H1 : forall l, own_warnings (map CollapsingWithoutWeighting l) = [])
    by (induction l; simpl; auto).
  assert (H2 : forall l, own_warnings (map CollapsingNonContiguous l) = [])
    by (induction l; simpl; auto).
  rewrite H1, H2; reflexivity.
Qed.

Lemma cross_section_flux_not_own (scalar_cube u v : Field) (r_planet : R)
    (this_coord : string) (cs : Constraint) :
  own_warnings (fst (cross_section_flux scalar_cube u v r_planet this_coord cs))
  = [].
Proof.
  rewrite cross_section_flux_fst.
  destruct (cross_section_cube _ _ _ _ _ _);
    [apply collapsed_warnings_not_own | reflexivity].
Qed.

(** The warnings of [misc.py] in a pass are those of its constraint. *)
Lemma boundary_flux_own_warnings (scalar_cube : Field) (bx : box)
    (u v : Field) (r_planet : R) (vc : option Constraint) (item : string * R) :
  own_warnings (fst (boundary_flux scalar_cube bx u v r_planet vc item))
  = own_warnings (fst (boundary_constraint scalar_cube bx vc item)).
Proof.
  rewrite boundary_flux_fst, own_warnings_app.
  destruct (snd (boundary_constraint scalar_cube bx vc item)) as [tc | s e];
    [rewrite cross_section_flux_not_own |]; apply app_nil_r.
Qed.

(** ** The cells an extraction keeps *)

Lemma map_snd_matching_from (p : R -> bool) (pts : list R) :
  forall s,
    map snd (filter (fun ip : nat * R => p (snd ip)) (combine (seq s (length pts)) pts))
    = filter p pts.
Proof.
  induction pts as [| x pts IH]; simpl; intros s; [reflexivity |].
  destruct (p x); simpl; rewrite IH; reflexivity.
Qed.

Lemma map_snd_matching (p : R -> bool) (pts : list R) :
  map snd (matching p pts) = filter p pts.
Proof. apply map_snd_matching_from. Qed.

Lemma filter_all (p : R -> bool) (pts : list R) :
  forallb p pts = true -> filter p pts = pts.
Proof.
  induction pts as [| x pts IH]; simpl; [reflexivity |].
  intros H; apply andb_true_iff in H; destruct H as [Hx Hrest].
  rewrite Hx, IH by exact Hrest; reflexivity.
Qed.

Lemma constrained_untested (cs : Constraint) (coord_name : string) (x : R) :
  tests cs coord_name = false -> constrained cs coord_name x = true.
Proof.
  unfold tests, constrained; induction cs as [| c cs IH]; simpl; [reflexivity |].
  intros H; apply orb_false_iff in H; destruct H as [Hc Hcs].
  rewrite Hc; exact (IH Hcs).
Qed.

Lemma as_slice_points (cs : Constraint) (coord_name : string) (pts : list R)
    (s : selection) :
  as_slice (tests cs coord_name) (constrained cs coord_name) pts = Some s ->
  selected_points s = filter (constrained cs coord_name) pts.
Proof.
  unfold as_slice.
  destruct (tests cs coord_name) eqn:Et.
  - rewrite <- map_snd_matching.
    destruct (matching _ pts) as [| [i x] [| c cells]]; intros H; inversion H;
      reflexivity.
  - intros H; inversion H; subst; simpl.
    rewrite filter_all
      by (apply forallb_forall; intros x _; apply constrained_untested, Et).
    unfold enumerate.
    clear; generalize 0%nat; induction pts as [| x pts IH]; simpl; intros n;
      [reflexivity | rewrite IH; reflexivity].
Qed.









(** ** A boundary away from the grid *)

Lemma nearest_coord_value_again (cube : Field) (coord_name : string)
    (val nearest : R) :
  nearest_coord_value cube coord_name val = Ok nearest ->
  nearest_coord_value cube coord_name nearest = Ok nearest.
Proof.
  intros H.
  destruct (nearest_coord_value_Ok _ _ _ _ H) as (pts & Hpts & Hin & _).
  destruct (nearest_coord_value cube coord_name nearest) as [n' | s e] eqn:E.
  - destruct (nearest_coord_value_Ok _ _ _ _ E) as (pts' & Hpts' & _ & Hmin).
    rewrite Hpts in Hpts'; inversion Hpts'; subst pts'.
    specialize (Hmin nearest Hin).
    replace (nearest - nearest) with 0 in Hmin by ring.
    rewrite Rabs_R0 in Hmin.
    pose proof (Rabs_pos (n' - nearest)) as Hpos.
    assert (Hz : Rabs (n' - nearest) = 0) by lra.
    f_equal; destruct (Req_dec (n' - nearest) 0) as [Hd | Hd]; [lra |].
    exfalso; exact (Rabs_no_R0 _ Hd Hz).
  - unfold nearest_coord_value in E; rewrite Hpts in E.
    destruct pts; [destruct Hin | discriminate].
Qed.

Lemma snap_warning_on_grid (this_coord : string) (nearest : R) :
  snap_warning this_coord nearest nearest = [].
Proof.
  unfold snap_warning.
  replace (nearest - nearest) with 0 by ring.
  rewrite Rabs_R0, Rltb_false by lra; reflexivity.
Qed.

(** Every value a coordinate has in an extract passes the tests the
    constraint puts on that coordinate. *)
Lemma as_slices_pass (cs : Constraint) (axs : list Axis) :
  forall sels coord_name pts x,
    as_slices cs axs = Some sels ->
    In (coord_name, pts) (extracted_coords axs sels) ->
    In x pts ->
    constrained cs coord_name x = true.
Proof.
  unfold extracted_coords.
  induction axs as [| b axs IH]; intros sels coord_name pts x Hs Hin Hx.
  - destruct sels; destruct Hin.
  - simpl in Hs.
    destruct (as_slice (tests cs (axis_name b)) (constrained cs (axis_name b))
                (axis_points b)) as [s |] eqn:Es;
      [| discriminate].
    destruct (as_slices cs axs) as [ss |] eqn:Ess; [| discriminate].
    inversion Hs; subst sels; clear Hs.
    apply as_slice_points in Es.
    assert (Hhere : forall y, In y (selected_points s) ->
                      constrained cs (axis_name b) y = true).
    { intros y Hy; rewrite Es in Hy; apply filter_In in Hy; tauto. }
    specialize (IH ss coord_name pts x eq_refl).
    apply in_app_or in Hin.
    destruct s as [i y | cells]; cbn [kept_axes dropped_scalars map] in Hin.
    + destruct Hin as [Hin | [Hin | Hin]].
      * apply IH; [apply in_or_app; left; exact Hin | exact Hx].
      * inversion Hin; subst coord_name pts; cbn [fst snd] in Hx.
        apply Hhere; exact Hx.
      * apply IH; [apply in_or_app; right; exact Hin | exact Hx].
    + destruct Hin as [[Hin | Hin] | Hin].
      * inversion Hin; subst coord_name pts; cbn [axis_name axis_points] in *.
        apply Hhere; exact Hx.
      * apply IH; [apply in_or_app; left; exact Hin | exact Hx].
      * apply IH; [apply in_or_app; right; exact Hin | exact Hx].
Qed.

Lemma extract_pass (cs : Constraint) (f g : Field) (coord_name : string)
    (pts : list R) (x : R) :
  extract cs f = Some g ->
  In (coord_name, pts) (coords g) ->
  In x pts ->
  constrained cs coord_name x = true.
Proof.
  unfold extract.
  destruct (negb _); [discriminate |].
  destruct (forallb (fun s => constrained cs (fst s) (snd s)) (scalars f)) eqn:Esc;
    [| discriminate].
  cbn [negb].
  destruct (as_slices cs (axes f)) as [sels |] eqn:Es; [| discriminate].
  intros H Hin Hx; inversion H; subst g; clear H.
  unfold coords in Hin; cbn [axes scalars] in Hin.
  rewrite map_app in Hin.
  apply in_app_or in Hin; destruct Hin as [Hin | Hin];
    [| apply in_app_or in Hin; destruct Hin as [Hin | Hin]].
  - apply (as_slices_pass cs (axes f) sels coord_name pts x Es); [| exact Hx].
    unfold extracted_coords; apply in_or_app; left; exact Hin.
  - apply in_map_iff in Hin; destruct Hin as (s & Hs & Hin).
    inversion Hs; subst coord_name pts.
    destruct Hx as [<- | []].
    exact (proj1 (forallb_forall _ _) Esc s Hin).
  - apply (as_slices_pass cs (axes f) sels coord_name pts x Es); [| exact Hx].
    unfold extracted_coords; apply in_or_app; right; exact Hin.
Qed.

Lemma pass_constraint_pins (this_coord : string) (nearest : R)
    (vc : option Constraint) (other : string) (other_min other_max x : R) :
  constrained (pass_constraint this_coord nearest vc other other_min other_max)
    this_coord x = true ->
  x = nearest.
Proof.
  unfold pass_constraint, constrained; cbn [app forallb fst snd].
  rewrite String.eqb_refl; intros H.
  apply andb_prop in H; destruct H as [H _].
  apply Reqb_spec; exact H.
Qed.

(** The total of the product of three cubes on the same dimensions. *)
Lemma total_of_product (wx sx area ws cube : Field) :
  multiply wx sx = Ok ws ->
  multiply ws area = Ok cube ->
  total cube
  = sum_over (shape wx)
      (fun idx => values wx idx * values sx idx * values area idx).
Proof.
  intros Hws Hcube.
  apply multiply_Ok in Hws; destruct Hws as [Haxes Hws].
  apply multiply_Ok in Hcube; destruct Hcube as [Haxes' Hcube].
  unfold total, shape; rewrite Haxes', Haxes.
  apply sum_over_ext; intros idx; rewrite Hcube, Hws; reflexivity.
Qed.

Lemma ex_far_constraint :
  boundary_constraint ex_scalar ex_box_far None ("longitude1"%string, 16)
  = ([NearestValueWarning (1 - 16) "longitude"],
     Ok ("longitude"%string, on_longitude 1 0 1)).
Proof. eval_constraint. Qed.

(** C6, the claim as written fails: a boundary requested on the grid still
    comes with three warnings, those of iris when the section is collapsed,
    and a boundary 15 degrees off the grid with four, one of them the
    warning of the function. *)
Lemma snap_warning_count_counterexample :
  Rabs (0 - 0) <= 10
  /\ fst (boundary_flux ex_scalar ex_box ex_u ex_v 180 None ("longitude0"%string, 0))
     = [CollapsingWithoutWeighting "latitude";
        CollapsingNonContiguous "height"; CollapsingNonContiguous "latitude"]
  /\ 10 < Rabs (1 - 16)
  /\ fst (boundary_flux ex_scalar ex_box_far ex_u ex_v 180 None
            ("longitude1"%string, 16))
     = [NearestValueWarning (1 - 16) "longitude";
        CollapsingWithoutWeighting "latitude";
        CollapsingNonContiguous "height"; CollapsingNonContiguous "latitude"].
Proof.
  rewrite (boundary_flux_eval _ _ _ _ _ _ _ _ _ _ _ _
             ex_constraint_lon0 (ex_section_lon0 _)).
  rewrite (boundary_flux_eval _ _ _ _ _ _ _ _ _ _ _ _
             ex_far_constraint (ex_section_lon1 _)).
  repeat split; try reflexivity.
  - replace (0 - 0) with 0 by ring; rewrite Rabs_R0; lra.
  - rewrite Rabs_left1; lra.
Qed.

(** C6, amended: the requested value of a boundary is snapped to a value of
    the axis that is nearest to it.  The function itself warns once when
    the two differ by more than 10 and not at all otherwise; the other
    warnings of the pass are those of iris.  Either way the pass is the
    pass at the snapped value: same warnings of iris, same flux or error.
    When it returns, its sections of the wind and of the scalar hold the
    fixed axis at the snapped value only, and its flux is the total of wind
    times scalar times area over them. *)
Theorem snap_and_warn (scalar_cube : Field) (bx : box) (u v : Field)
    (r_planet : R) (vc : option Constraint) (key : string) (val : R)
    (other : string) (p : R) (ps : list R) :
  ll_other (drop_last key) = Ok other ->
  coord_points scalar_cube (drop_last key) = Some (p :: ps) ->
  exists nearest,
    nearest_coord_value scalar_cube (drop_last key) val = Ok nearest
    /\ In nearest (p :: ps)
    /\ (forall q, In q (p :: ps) -> Rabs (nearest - val) <= Rabs (q - val))
    /\ (10 < Rabs (nearest - val) ->
        own_warnings (fst (boundary_flux scalar_cube bx u v r_planet vc (key, val)))
        = [NearestValueWarning (nearest - val) (drop_last key)])
    /\ (Rabs (nearest - val) <= 10 ->
        own_warnings (fst (boundary_flux scalar_cube bx u v r_planet vc (key, val)))
        = [])
    /\ boundary_flux scalar_cube bx u v r_planet vc (key, val)
       = (snap_warning (drop_last key) nearest val
          ++ fst (boundary_flux scalar_cube bx u v r_planet vc (key, nearest)),
          snd (boundary_flux scalar_cube bx u v r_planet vc (key, nearest)))
    /\ own_warnings
         (fst (boundary_flux scalar_cube bx u v r_planet vc (key, nearest))) = []
    /\ (forall f,
          snd (boundary_flux scalar_cube bx u v r_planet vc (key, val)) = Ok f ->
          exists other_min other_max wind wx sx area,
            dict_get bx (String.append other "0") = Ok other_min
            /\ dict_get bx (String.append other "1") = Ok other_max
            /\ perpendicular_wind_cmpnts u v (drop_last key) = Ok wind
            /\ extract (pass_constraint (drop_last key) nearest vc other
                          other_min other_max) wind = Some wx
            /\ extract (pass_constraint (drop_last key) nearest vc other
                          other_min other_max) scalar_cube = Some sx
            /\ vertical_cross_section_area (Some (cube_of sx)) r_planet = Ok area
            /\ (forall pts x, In (drop_last key, pts) (coords wx) -> In x pts ->
                              x = nearest)
            /\ (forall pts x, In (drop_last key, pts) (coords sx) -> In x pts ->
                              x = nearest)
            /\ f = sum_over (shape wx)
                     (fun idx => values wx idx * values sx idx * values area idx)).
Proof.
  intros Hother Hpts.
  assert (Hnear : nearest_coord_value scalar_cube (drop_last key) val
                  = Ok (fold_left (nearer val) ps p))
    by (unfold nearest_coord_value; rewrite Hpts; reflexivity).
  set (nearest := fold_left (nearer val) ps p) in *.
  exists nearest.
  destruct (nearest_coord_value_Ok _ _ _ _ Hnear) as (pts & Hpts' & Hin & Hmin).
  rewrite Hpts in Hpts'; inversion Hpts'; subst pts; clear Hpts'.
  split; [exact Hnear |]; split; [exact Hin |]; split; [exact Hmin |].
  pose proof (nearest_coord_value_again _ _ _ _ Hnear) as Hagain.
  pose proof (boundary_constraint_unfold scalar_cube bx vc key val other nearest
                Hother Hnear) as Hc.
  pose proof (boundary_constraint_unfold scalar_cube bx vc key nearest other nearest
                Hother Hagain) as Hc'.
  rewrite snap_warning_on_grid in Hc'.
  assert (Hsame :
    boundary_flux scalar_cube bx u v r_planet vc (key, val)
    = (snap_warning (drop_last key) nearest val
       ++ fst (boundary_flux scalar_cube bx u v r_planet vc (key, nearest)),
       snd (boundary_flux scalar_cube bx u v r_planet vc (key, nearest)))).
  { unfold boundary_flux; rewrite Hc, Hc'.
    destruct (other_min <-- dict_get bx (String.append other "0") ;;
              other_max <-- dict_get bx (String.append other "1") ;;
              Ok (drop_last key,
                  ((drop_last key, fun x => Reqb x nearest)
                   :: match vc with Some c => c | None => [] end)
                  ++ [(other, free_axis_test other_min other_max)]))
      as [tc | s e]; cbn [bind];
      [| cbn [fst snd]; rewrite app_nil_r; reflexivity].
    match goal with
    | |- context [cross_section_flux ?a ?b ?c ?d ?e ?f] =>
        destruct (cross_section_flux a b c d e f) as [w' r']
    end.
    reflexivity. }
  assert (Hnone :
    own_warnings
      (fst (boundary_flux scalar_cube bx u v r_planet vc (key, nearest))) = []).
  { rewrite boundary_flux_own_warnings, Hc'; reflexivity. }
  assert (Hown :
    own_warnings (fst (boundary_flux scalar_cube bx u v r_planet vc (key, val)))
    = snap_warning (drop_last key) nearest val).
  { rewrite Hsame; cbn [fst]; rewrite own_warnings_app, Hnone, app_nil_r.
    unfold snap_warning; destruct (Rltb _ _); reflexivity. }
  split; [intros Hfar; rewrite Hown; unfold snap_warning;
          rewrite Rltb_true by exact Hfar; reflexivity |].
  split; [intros Hclose; rewrite Hown; unfold snap_warning;
          rewrite Rltb_false by exact Hclose; reflexivity |].
  split; [exact Hsame |]; split; [exact Hnone |].
  intros f Hf.
  rewrite boundary_flux_snd, Hc in Hf; cbn [snd] in Hf.
  apply rbind_Ok in Hf; destruct Hf as (tc & Htc & Hf).
  apply rbind_Ok in Htc; destruct Htc as (other_min & Hmin' & Htc).
  apply rbind_Ok in Htc; destruct Htc as (other_max & Hmax' & Htc).
  inversion Htc; subst tc; clear Htc; cbn [fst snd] in Hf.
  apply cross_section_flux_Ok in Hf.
  destruct Hf as (area & wind & wx & sx & ws & cube
                  & Harea & Hwind & Hwx & Hsx & Hws & Hcube & ->).
  exists other_min, other_max, wind, wx, sx, area.
  split; [exact Hmin' |]; split; [exact Hmax' |]; split; [exact Hwind |].
  split; [exact Hwx |]; split; [exact Hsx |]; split; [exact Harea |].
  split; [| split].
  - intros pts x Hc0 Hx.
    exact (pass_constraint_pins _ _ _ _ _ _ _
             (extract_pass _ _ _ _ _ _ Hwx Hc0 Hx)).
  - intros pts x Hc0 Hx.
    exact (pass_constraint_pins _ _ _ _ _ _ _
             (extract_pass _ _ _ _ _ _ Hsx Hc0 Hx)).
  - exact (total_of_product _ _ _ _ _ Hws Hcube).
Qed.

Lemma ex_far_points :
  coord_points ex_scalar (drop_last "longitude1") = Some [0; 1].
Proof. reflexivity. Qed.

Lemma ex_far_nearest : nearest_coord_value ex_scalar "longitude" 16 = Ok 1.
Proof. unfold nearest_coord_value; repeat (Reval; Rstep); reflexivity. Qed.

Lemma snap_and_warn_witness :
  10 < Rabs (1 - 16)
  /\ own_warnings
       (fst (boundary_flux ex_scalar ex_box_far ex_u ex_v 180 None
               ("longitude1"%string, 16)))
     = [NearestValueWarning (1 - 16) "longitude"]
  /\ snd (boundary_flux ex_scalar ex_box_far ex_u ex_v 180 None
            ("longitude1"%string, 16))
     = snd (boundary_flux ex_scalar ex_box_far ex_u ex_v 180 None
              ("longitude1"%string, 1)).
Proof.
  assert (Hfar : 10 < Rabs (1 - 16)) by (rewrite Rabs_left1; lra).
  split; [exact Hfar |].
  destruct (snap_and_warn ex_scalar ex_box_far ex_u ex_v 180 None "longitude1" 16
              "latitude" 0 [1] eq_refl ex_far_points)
    as (nearest & Hnear & _ & _ & Hwarn & _ & Hsame & _).
  assert (E : nearest = 1).
  { pose proof ex_far_nearest as H1; simpl in Hnear.
    rewrite H1 in Hnear; inversion Hnear; reflexivity. }
  subst nearest; split; [exact (Hwarn Hfar) |].
  rewrite Hsame; reflexivity.
Defined.

(** * Further properties *)

(** ** [vertical_cross_section_area] *)

Lemma guess_axis_X_not_Y (nm : string) :
  guess_coord_axis nm = Some AxisX -> is_Y nm = false.
Proof. unfold is_Y; intros ->; reflexivity. Qed.

Lemma filter_Y_scalars (scal : list (string * R)) :
  filter (fun c : string * list R => is_Y (fst c))
    (map (fun s : string * R => (fst s, [snd s])) scal)
  = map (fun s : string * R => (fst s, [snd s]))
      (filter (fun s : string * R => is_Y (fst s)) scal).
Proof.
  induction scal as [| s scal IH]; simpl; [reflexivity |].
  destruct (is_Y (fst s)); simpl; rewrite IH; reflexivity.
Qed.

(** X1, the cell areas of a section whose second dimension is not a
    longitude (the height/latitude sections of the flux computation): on
    two evenly spaced coordinates of at least two points each, whose cells
    stay within the poles when the coordinate is a latitude, every cell has
    the area [d0 * d1 * (PI / 180) * r_planet], with or without bounds on
    the coordinates; no cosine enters, and a coordinate that decreases
    gives negative areas. *)
Theorem section_area_away_from_longitude (name0 : string) (p0 d0 : R) (n0 : nat)
    (name1 : string) (p1 d1 : R) (n1 : nat) (scal : list (string * R))
    (v : list nat -> R) (r_planet : R) (with_bounds : bool) :
  (2 <= n0)%nat -> (2 <= n1)%nat ->
  clear_of_poles name0 p0 d0 n0 ->
  clear_of_poles name1 p1 d1 n1 ->
  guess_coord_axis name1 <> Some AxisX ->
  exists area,
    vertical_cross_section_area
      (Some (uniform_slice name0 p0 d0 n0 name1 p1 d1 n1 scal v with_bounds)) r_planet
    = Ok area
    /\ forall i j, (i < n0)%nat -> (j < n1)%nat ->
         values area [i; j] = d0 * d1 * ((PI / 180) * r_planet).
Proof.
  intros H0 H1 C0 C1 HX.
  unfold vertical_cross_section_area, uniform_slice; cbn [dim_coords scalar_coords].
  rewrite all_bounds_uniform_slice by assumption.
  unfold uniform_coord; cbn [standard_name points length map].
  destruct (guess_coord_axis name1) as [[|] |]; [contradiction HX; reflexivity | |];
    cbn [rbind nth];
    rewrite !widths_length, !uniform_length, !Nat.eqb_refl; cbn [andb];
    (eexists; split; [reflexivity |]);
    intros i j Hi Hj; cbn [values];
    rewrite !widths_midpoint_bounds by (rewrite uniform_length; assumption);
    ring.
Qed.

Lemma clear_of_poles_descending : clear_of_poles "latitude" 1 (-1) 2.
Proof.
  intros _ p Hp; unfold uniform in Hp; simpl in Hp.
  destruct Hp as [<- | [<- | []]]; lra.
Qed.

Lemma section_area_away_from_longitude_witness :
  exists area,
    vertical_cross_section_area
      (Some (uniform_slice "height" 0 1 2 "latitude" 1 (-1) 2 [] (fun _ => 0) false))
      180 = Ok area
    /\ values area [0%nat; 0%nat] = 1 * -1 * (PI / 180 * 180).
Proof.
  destruct (section_area_away_from_longitude "height" 0 1 2 "latitude" 1 (-1) 2 []
              (fun _ => 0) 180 false) as (area & H & Hv).
  - lia.
  - lia.
  - apply clear_of_poles_other; reflexivity.
  - exact clear_of_poles_descending.
  - discriminate.
  - exists area; split; [exact H | apply Hv; lia].
Defined.

Lemma longitude_like_not_latitude (nm : string) :
  guess_coord_axis nm = Some AxisX -> is_latitude nm = false.
Proof.
  unfold guess_coord_axis.
  destruct (existsb (String.eqb nm)
              ["longitude"; "grid_longitude"; "projection_x_coordinate"]%string) eqn:E.
  - intros _; apply existsb_exists in E; destruct E as (x & Hx & Hnm).
    apply String.eqb_eq in Hnm; subst x.
    destruct Hx as [<- | [<- | [<- | []]]]; reflexivity.
  - destruct (existsb (String.eqb nm)
                ["latitude"; "grid_latitude"; "projection_y_coordinate"]%string);
      intros H; discriminate H.
Qed.

(** X2, the cell areas of a section along a longitude (the height/longitude
    sections of the flux computation): when the only latitude of the slice
    is a scalar coordinate, every cell has the area
    [d0 * d1 * (PI / 180) * r_planet * cos(latitude)], the cosine taken at
    that scalar latitude. *)
Theorem section_area_along_longitude (name0 : string) (p0 d0 : R) (n0 : nat)
    (name1 : string) (p1 d1 : R) (n1 : nat) (scal : list (string * R))
    (v : list nat -> R) (r_planet : R) (with_bounds : bool)
    (lat_name : string) (lat : R) :
  (2 <= n0)%nat -> (2 <= n1)%nat ->
  clear_of_poles name0 p0 d0 n0 ->
  guess_coord_axis name1 = Some AxisX ->
  is_Y name0 = false ->
  filter (fun s => is_Y (fst s)) scal = [(lat_name, lat)] ->
  exists area,
    vertical_cross_section_area
      (Some (uniform_slice name0 p0 d0 n0 name1 p1 d1 n1 scal v with_bounds)) r_planet
    = Ok area
    /\ forall i j, (i < n0)%nat -> (j < n1)%nat ->
         values area [i; j]
         = d0 * d1 * ((PI / 180) * r_planet * cos (lat * (PI / 180))).
Proof.
  intros H0 H1 C0 HX HY0 Hscal.
  assert (C1 : clear_of_poles name1 p1 d1 n1)
    by (apply clear_of_poles_other, longitude_like_not_latitude; exact HX).
  unfold vertical_cross_section_area, uniform_slice; cbn [dim_coords scalar_coords].
  rewrite all_bounds_uniform_slice by assumption.
  unfold coord_axis_Y, uniform_coord;
    cbn [dim_coords scalar_coords standard_name points length map].
  rewrite HX, filter_app, filter_Y_scalars, Hscal; cbn [filter fst snd map].
  rewrite HY0, (guess_axis_X_not_Y _ HX); cbn [app rbind snd nth].
  rewrite !widths_length, !uniform_length, !Nat.eqb_refl; cbn [andb].
  eexists; split; [reflexivity |].
  intros i j Hi Hj; cbn [values].
  rewrite !widths_midpoint_bounds by (rewrite uniform_length; assumption).
  unfold deg2rad; ring.
Qed.

Lemma section_area_along_longitude_witness :
  exists area,
    vertical_cross_section_area
      (Some (uniform_slice "height" 0 1 2 "longitude" 0 1 2
               [("latitude"%string, 60)] (fun _ => 0) false))
      180 = Ok area
    /\ values area [0%nat; 0%nat]
       = 1 * 1 * (PI / 180 * 180 * cos (60 * (PI / 180))).
Proof.
  destruct (section_area_along_longitude "height" 0 1 2 "longitude" 0 1 2
              [("latitude"%string, 60)] (fun _ => 0) 180 false "latitude" 60)
    as (area & H & Hv).
  - lia.
  - lia.
  - apply clear_of_poles_other; reflexivity.
  - reflexivity.
  - reflexivity.
  - reflexivity.
  - exists area; split; [exact H | apply Hv; lia].
Defined.

Lemma all_bounds_Raise (cs : list Coord) (s : site) (e : exn) :
  all_bounds cs = Raise s e -> s = at_area.
Proof.
  induction cs as [| c cs IH]; cbn [all_bounds]; [discriminate |].
  destruct (bounds_or_guess c) as [b | s' e'] eqn:E; cbn [rbind].
  - destruct (all_bounds cs) as [bs | s' e']; cbn [rbind]; [discriminate |].
    intros H; inversion H; subst; apply IH; reflexivity.
  - intros H; inversion H; subst; exact (bounds_or_guess_Raise _ _ _ E).
Qed.

Lemma all_bounds_Ok (cs : list Coord) (bs : list (list (R * R))) :
  all_bounds cs = Ok bs ->
  forall c, In c cs -> bounds c <> None \/ (2 <= length (points c))%nat.
Proof.
  revert bs; induction cs as [| c cs IH]; intros bs H c' Hin; [destruct Hin |].
  cbn [all_bounds] in H.
  destruct (bounds_or_guess c) as [b | s e] eqn:E; [| discriminate].
  cbn [rbind] in H.
  destruct (all_bounds cs) as [bs' | s e]; [| discriminate].
  destruct Hin as [<- | Hin]; [| exact (IH bs' eq_refl c' Hin)].
  unfold bounds_or_guess in E.
  destruct (bounds c) as [b0 |]; [left; discriminate | right].
  unfold guess_bounds in E.
  destruct (length (points c) <? 2)%nat eqn:L; [discriminate |].
  apply Nat.ltb_ge in L; exact L.
Qed.

Lemma m_per_deg_step_Raise (cube2d : Cube) (c1 : Coord) (m : R) (s : site) (e : exn) :
  match guess_coord_axis (standard_name c1) with
  | Some AxisX =>
      y <-- coord_axis_Y cube2d ;;
      match y with
      | p0 :: _ => Ok (m * cos (deg2rad p0))
      | [] => Raise at_area IndexError
      end
  | _ => Ok m
  end = Raise s e -> s = at_area.
Proof.
  destruct (guess_coord_axis (standard_name c1)) as [[|] |]; try discriminate.
  unfold coord_axis_Y.
  destruct (filter _ _) as [| c [| c' l]]; cbn [rbind];
    try (intros H; inversion H; reflexivity).
  destruct (snd c); intros H; inversion H; reflexivity.
Qed.

(** X3, what a returned area cube looks like: it is named
    [vertical_section_area], it keeps the scalar coordinates of the slice
    and its two dimension coordinates, and the slice had exactly two
    dimensions, each with bounds or with at least two points. *)
Theorem area_field_shape (cube2d : Cube) (r_planet : R) (area : Field) :
  vertical_cross_section_area (Some cube2d) r_planet = Ok area ->
  field_name area = "vertical_section_area"%string
  /\ scalars area = scalar_coords cube2d
  /\ exists c0 c1,
       dim_coords cube2d = [c0; c1]
       /\ axes area = [ {| axis_name := standard_name c0; axis_points := points c0 |};
                        {| axis_name := standard_name c1; axis_points := points c1 |} ]
       /\ (bounds c0 <> None \/ (2 <= length (points c0))%nat)
       /\ (bounds c1 <> None \/ (2 <= length (points c1))%nat).
Proof.
  unfold vertical_cross_section_area; intros H.
  destruct (dim_coords cube2d) as [| c0 [| c1 rest]] eqn:Edims; try discriminate.
  apply rbind_Ok in H; destruct H as (m & _ & H).
  apply rbind_Ok in H; destruct H as (bs & Hbs & H).
  cbv zeta in H.
  destruct (Nat.eqb (length (c0 :: c1 :: rest)) 2) eqn:Elen; [| discriminate].
  destruct (_ && _); [| discriminate].
  apply Nat.eqb_eq in Elen; destruct rest as [| c2 rest]; [| discriminate].
  inversion H; subst area; cbn [field_name scalars axes map].
  repeat split.
  exists c0, c1; repeat split.
  - apply (all_bounds_Ok _ _ Hbs); left; reflexivity.
  - apply (all_bounds_Ok _ _ Hbs); right; left; reflexivity.
Qed.

Lemma area_field_shape_witness :
  exists area,
    vertical_cross_section_area
      (Some (uniform_slice "height" 0 1 2 "latitude" 0 1 2 [] (fun _ => 0) false)) 180
    = Ok area
    /\ field_name area = "vertical_section_area"%string
    /\ scalars area = [].
Proof.
  destruct ex_height_latitude_area as (area & H & _).
  exists area; split; [exact H |].
  destruct (area_field_shape _ _ _ H) as (Hname & Hscal & _).
  exact (conj Hname Hscal).
Defined.

(** X4, the number of dimensions: a cube that has not exactly two dimension
    coordinates makes [vertical_cross_section_area] fail, with an
    [IndexError] when it has fewer than two. *)
Theorem area_needs_two_dimensions (cube2d : Cube) (r_planet : R) :
  length (dim_coords cube2d) <> 2%nat ->
  (exists e, vertical_cross_section_area (Some cube2d) r_planet = Raise at_area e)
  /\ ((length (dim_coords cube2d) < 2)%nat ->
      vertical_cross_section_area (Some cube2d) r_planet = Raise at_area IndexError).
Proof.
  intros Hlen; unfold vertical_cross_section_area.
  destruct (dim_coords cube2d) as [| c0 [| c1 [| c2 rest]]] eqn:Edims;
    cbn [length] in *; try (split; [eauto | intros; reflexivity]); [congruence |].
  split; [| intros; lia].
  assert (Hrest : forall m : R,
            exists e,
              (bs <-- all_bounds (c0 :: c1 :: c2 :: rest) ;;
               (let x_bounds := nth 1 bs [] in
                let z_bounds := nth 0 bs [] in
                let dz := widths z_bounds in
                let dx := widths x_bounds in
                if Nat.eqb (length (c0 :: c1 :: c2 :: rest)) 2
                   && Nat.eqb (length dz) (length (points c0))
                   && Nat.eqb (length dx) (length (points c1))
                then
                  Ok {| field_name := "vertical_section_area";
                        axes := map (fun c => {| axis_name := standard_name c;
                                                 axis_points := points c |})
                                  (c0 :: c1 :: c2 :: rest);
                        scalars := scalar_coords cube2d;
                        values := fun idx =>
                          match idx with
                          | [i; j] => nth i dz 0 * (nth j dx 0 * m)
                          | _ => 0
                          end |}
                else Raise at_area ValueError)) = Raise at_area e).
  { intros m.
    destruct (all_bounds (c0 :: c1 :: c2 :: rest)) as [bs | s e] eqn:Eb; cbn [rbind].
    - cbn [length Nat.eqb andb]; eauto.
    - apply all_bounds_Raise in Eb; subst s; eauto. }
  destruct (guess_coord_axis (standard_name c1)) as [[|] |]; cbn [rbind];
    try apply Hrest.
  unfold coord_axis_Y.
  destruct (filter _ _) as [| c [| c' l]]; cbn [rbind]; eauto.
  destruct (snd c); cbn [rbind]; [eauto | apply Hrest].
Qed.

Lemma area_needs_two_dimensions_witness :
  vertical_cross_section_area
    (Some {| name := "q";
             dim_coords := [uniform_coord "latitude" 0 1 2 false];
             scalar_coords := [];
             data := fun _ => 0 |}) 180
  = Raise at_area IndexError.
Proof.
  apply area_needs_two_dimensions.
  - discriminate.
  - cbn; lia.
Defined.

Lemma filter_none {A} (p : A -> bool) (l : list A) :
  (forall x, In x l -> p x = false) -> filter p l = [].
Proof.
  induction l as [| a l IH]; intros H; [reflexivity |]; simpl.
  rewrite (H a (or_introl eq_refl)); apply IH; intros x Hx; apply H; right; exact Hx.
Qed.

(** X5, the latitude of a section along a longitude: when the second
    dimension is a longitude and no coordinate of the cube is a latitude,
    the lookup [coord(axis="Y")] fails and the function raises
    [CoordinateNotFoundError]. *)
Theorem longitude_section_needs_a_latitude (cube2d : Cube) (r_planet : R)
    (c0 c1 : Coord) (rest : list Coord) :
  dim_coords cube2d = c0 :: c1 :: rest ->
  guess_coord_axis (standard_name c1) = Some AxisX ->
  (forall nm, In nm (coord_names cube2d) -> is_Y nm = false) ->
  vertical_cross_section_area (Some cube2d) r_planet
  = Raise at_area CoordinateNotFoundError.
Proof.
  intros Hdims HX HnoY; unfold vertical_cross_section_area.
  rewrite Hdims, HX; unfold coord_axis_Y.
  rewrite filter_none; [reflexivity |].
  intros [nm pts] Hin; cbn [fst]; apply HnoY; unfold coord_names.
  apply in_app_or in Hin; apply in_or_app; destruct Hin as [Hin | Hin].
  - left; apply in_map_iff in Hin; destruct Hin as (c & Hc & Hin).
    inversion Hc; subst; apply in_map; exact Hin.
  - right; apply in_map_iff in Hin; destruct Hin as (s & Hs & Hin).
    inversion Hs; subst; apply in_map; exact Hin.
Qed.

Lemma longitude_section_needs_a_latitude_witness :
  vertical_cross_section_area
    (Some (uniform_slice "height" 0 1 2 "longitude" 0 1 2 [] (fun _ => 0) false)) 180
  = Raise at_area CoordinateNotFoundError.
Proof.
  apply (longitude_section_needs_a_latitude _ 180
           (uniform_coord "height" 0 1 2 false)
           (uniform_coord "longitude" 0 1 2 false) []).
  - reflexivity.
  - reflexivity.
  - intros nm [<- | [<- | []]]; reflexivity.
Defined.

(** X6, the radius enters once: with the radius multiplied by [k] the
    function returns a cube on the same coordinates whose areas are [k]
    times the former ones (not [k * k] times). *)
Theorem area_scales_with_radius (cube2d : Cube) (r_planet k : R) (area : Field) :
  vertical_cross_section_area (Some cube2d) r_planet = Ok area ->
  exists area',
    vertical_cross_section_area (Some cube2d) (k * r_planet) = Ok area'
    /\ axes area' = axes area
    /\ forall idx, values area' idx = k * values area idx.
Proof.
  unfold vertical_cross_section_area; intros H.
  destruct (dim_coords cube2d) as [| c0 [| c1 rest]] eqn:Edims; try discriminate.
  apply rbind_Ok in H; destruct H as (m & Hm & H).
  apply rbind_Ok in H; destruct H as (bs & Hbs & H).
  cbv zeta in H.
  assert (Hm' : match guess_coord_axis (standard_name c1) with
                | Some AxisX =>
                    y <-- coord_axis_Y cube2d ;;
                    match y with
                    | p0 :: _ => Ok (PI / 180 * (k * r_planet) * cos (deg2rad p0))
                    | [] => Raise at_area IndexError
                    end
                | _ => Ok (PI / 180 * (k * r_planet))
                end = Ok (k * m)).
  { destruct (guess_coord_axis (standard_name c1)) as [[|] |].
    - destruct (coord_axis_Y cube2d) as [[| p0 ys] | s e]; cbn [rbind] in *;
        try discriminate.
      inversion Hm; f_equal; ring.
    - inversion Hm; f_equal; ring.
    - inversion Hm; f_equal; ring. }
  rewrite Hm', Hbs; cbn [rbind].
  destruct (_ && _); [| discriminate].
  inversion H; subst area; clear H.
  eexists; split; [reflexivity |]; split; [reflexivity |].
  intros idx; cbn [values].
  destruct idx as [| i [| j [| l idx]]]; ring.
Qed.

Lemma area_scales_with_radius_witness :
  exists area area',
    vertical_cross_section_area
      (Some (uniform_slice "height" 0 1 2 "latitude" 0 1 2 [] (fun _ => 0) false)) 180
    = Ok area
    /\ vertical_cross_section_area
         (Some (uniform_slice "height" 0 1 2 "latitude" 0 1 2 [] (fun _ => 0) false))
         (2 * 180)
       = Ok area'
    /\ values area' [0%nat; 0%nat] = 2 * values area [0%nat; 0%nat].
Proof.
  destruct ex_height_latitude_area as (area & H & _).
  destruct (area_scales_with_radius _ 180 2 area H) as (area' & H' & _ & Hv).
  exists area, area'; split; [exact H |]; split; [exact H' | apply Hv].
Defined.

(** ** [net_horizontal_flux_to_region] *)

Lemma returned_flux_name_aux (scalar_cube : Field) (bx : box) (u v : Field)
    (r_planet : R) (vc : option Constraint) (w : list warning) (res : FluxResult) :
  net_horizontal_flux_to_region scalar_cube bx u v r_planet vc = (w, Ok res) ->
  flux_name res
  = String.append "net_"
      (String.append (field_name scalar_cube) "_horizontal_flux_to_region").
Proof.
  unfold net_horizontal_flux_to_region; intros H.
  apply bind_Ok in H; destruct H as (w1 & fs & w2 & _ & Hnet & _).
  destruct fs as [| f0 [| f1 [| f2 [| f3 rest]]]]; try discriminate.
  inversion Hnet; reflexivity.
Qed.

Lemma dict_get_In (bx : box) (key : string) (x : R) :
  dict_get bx key = Ok x -> In (key, x) bx.
Proof.
  unfold dict_get.
  destruct (find (fun kv => String.eqb (fst kv) key) bx) as [[k y] |] eqn:E;
    [| discriminate].
  intros H; inversion H; subst y.
  apply find_some in E; destruct E as [Hin Hk]; cbn [fst] in Hk.
  apply String.eqb_eq in Hk; subst k; exact Hin.
Qed.

Lemma boundary_flux_Ok_keys (scalar_cube : Field) (bx : box) (u v : Field)
    (r_planet : R) (vc : option Constraint) (key : string) (val f : R) :
  snd (boundary_flux scalar_cube bx u v r_planet vc (key, val)) = Ok f ->
  exists other lo hi,
    ll_other (drop_last key) = Ok other
    /\ dict_get bx (String.append other "0") = Ok lo
    /\ dict_get bx (String.append other "1") = Ok hi.
Proof.
  rewrite boundary_flux_snd; intros H.
  apply rbind_Ok in H; destruct H as (tc & Htc & _).
  destruct (boundary_constraint scalar_cube bx vc (key, val)) as [w r] eqn:E.
  cbn [snd] in Htc; subst r.
  apply boundary_constraint_Ok in E.
  destruct E as (other & nearest & lo & hi & Ho & _ & Hlo & Hhi & _).
  exists other, lo, hi; auto.
Qed.

Lemma pass_over_each_axis (scalar_cube : Field) (bx : box) (u v : Field)
    (r_planet : R) (vc : option Constraint) (w : list warning) (res : FluxResult) :
  net_horizontal_flux_to_region scalar_cube bx u v r_planet vc = (w, Ok res) ->
  forall this_coord, this_coord = "longitude"%string \/ this_coord = "latitude"%string ->
  exists key val f,
    In (key, val) bx
    /\ drop_last key = this_coord
    /\ snd (boundary_flux scalar_cube bx u v r_planet vc (key, val)) = Ok f.
Proof.
  intros H; apply net_flux_inv in H.
  destruct H as (f0 & f1 & f2 & f3 & rest & Hall & _).
  assert (Hpass : forall item, In item bx ->
            exists f, snd (boundary_flux scalar_cube bx u v r_planet vc item) = Ok f).
  { intros item Hin; exact (Forall2_In_l _ _ _ _ Hall Hin). }
  destruct bx as [| [key val] bx']; [inversion Hall |].
  destruct (Hpass _ (or_introl eq_refl)) as [f Hf].
  destruct (boundary_flux_Ok_keys _ _ _ _ _ _ _ _ _ Hf)
    as (other & lo & hi & Ho & Hlo & _).
  apply dict_get_In in Hlo; destruct (Hpass _ Hlo) as [f' Hf'].
  apply ll_other_inv in Ho.
  intros this_coord [-> | ->]; destruct Ho as [[Hk ->] | [Hk ->]].
  - exists key, val, f; repeat split; auto; left; reflexivity.
  - exists "longitude0"%string, lo, f'; repeat split; auto.
  - exists "latitude0"%string, lo, f'; repeat split; auto.
  - exists key, val, f; repeat split; auto; left; reflexivity.
Qed.

(** X7, the keys of the box: a call that returns was given a box with the
    four keys [longitude0], [longitude1], [latitude0] and [latitude1]. *)
Theorem returned_flux_needs_all_four_keys (scalar_cube : Field) (bx : box)
    (u v : Field) (r_planet : R) (vc : option Constraint) (w : list warning)
    (res : FluxResult) :
  net_horizontal_flux_to_region scalar_cube bx u v r_planet vc = (w, Ok res) ->
  exists lon0 lon1 lat0 lat1,
    dict_get bx "longitude0" = Ok lon0
    /\ dict_get bx "longitude1" = Ok lon1
    /\ dict_get bx "latitude0" = Ok lat0
    /\ dict_get bx "latitude1" = Ok lat1.
Proof.
  intros H.
  destruct (pass_over_each_axis _ _ _ _ _ _ _ _ H "longitude"%string
              (or_introl eq_refl)) as (k1 & x1 & f1 & _ & Hk1 & Hf1).
  destruct (pass_over_each_axis _ _ _ _ _ _ _ _ H "latitude"%string
              (or_intror eq_refl)) as (k2 & x2 & f2 & _ & Hk2 & Hf2).
  apply boundary_flux_Ok_keys in Hf1, Hf2.
  destruct Hf1 as (o1 & lat0 & lat1 & Ho1 & Hlat0 & Hlat1).
  destruct Hf2 as (o2 & lon0 & lon1 & Ho2 & Hlon0 & Hlon1).
  rewrite Hk1 in Ho1; rewrite Hk2 in Ho2.
  inversion Ho1; subst o1; inversion Ho2; subst o2.
  exists lon0, lon1, lat0, lat1; auto.
Qed.

Lemma returned_flux_needs_all_four_keys_witness :
  exists lon0 lon1 lat0 lat1,
    dict_get ex_box "longitude0" = Ok lon0
    /\ dict_get ex_box "longitude1" = Ok lon1
    /\ dict_get ex_box "latitude0" = Ok lat0
    /\ dict_get ex_box "latitude1" = Ok lat1.
Proof.
  exact (returned_flux_needs_all_four_keys _ _ _ _ _ _ _ _ ex_net).
Defined.

(** X8, a key of another stem: the first entry of the box whose key
    without its last character is neither [longitude] nor [latitude] stops
    the call with a [KeyError] on that stem. *)
Theorem unknown_axis_key_is_a_key_error (scalar_cube : Field) (bx : box)
    (u v : Field) (r_planet : R) (vc : option Constraint)
    (pre post : list (string * R)) (key : string) (val : R) :
  bx = pre ++ (key, val) :: post ->
  (forall x, In x pre ->
     exists f, snd (boundary_flux scalar_cube bx u v r_planet vc x) = Ok f) ->
  drop_last key <> "longitude"%string ->
  drop_last key <> "latitude"%string ->
  snd (net_horizontal_flux_to_region scalar_cube bx u v r_planet vc)
  = Raise at_box (KeyError (drop_last key)).
Proof.
  intros Hbx Hpre Hlon Hlat.
  apply (net_flux_Raise _ _ _ _ _ _ pre post (key, val) _ _ Hbx Hpre).
  rewrite boundary_flux_snd; unfold boundary_constraint, ll_other.
  apply String.eqb_neq in Hlon, Hlat; rewrite Hlon, Hlat; reflexivity.
Qed.

Lemma unknown_axis_key_is_a_key_error_witness :
  snd (net_horizontal_flux_to_region ex_scalar
         [("lon0"%string, 0); ("lon1"%string, 1);
          ("lat0"%string, 0); ("lat1"%string, 1)] ex_u ex_v 180 None)
  = Raise at_box (KeyError "lon").
Proof.
  apply (unknown_axis_key_is_a_key_error ex_scalar _ ex_u ex_v 180 None []
           [("lon1"%string, 1); ("lat0"%string, 0); ("lat1"%string, 1)]
           "lon0" 0).
  - reflexivity.
  - intros x [].
  - discriminate.
  - discriminate.
Defined.

(** X9, the wind component of a pass: the pass of a longitude key reads
    [u] only and the pass of a latitude key reads [v] only, so replacing
    the other component leaves the warnings and the flux of the pass (or
    its error) unchanged. *)
Theorem flux_uses_the_normal_wind_only (scalar_cube : Field) (bx : box)
    (u v u' v' : Field) (r_planet : R) (vc : option Constraint)
    (key : string) (val : R) :
  (drop_last key = "longitude"%string -> u' = u) ->
  (drop_last key = "latitude"%string -> v' = v) ->
  boundary_flux scalar_cube bx u v r_planet vc (key, val)
  = boundary_flux scalar_cube bx u' v' r_planet vc (key, val).
Proof.
  intros Hu Hv; unfold boundary_flux.
  destruct (boundary_constraint scalar_cube bx vc (key, val)) as [w [tc | s e]] eqn:E;
    [| reflexivity].
  apply boundary_constraint_Ok in E.
  destruct E as (other & nearest & lo & hi & Ho & _ & _ & _ & _ & ->).
  cbn [bind fst snd]; unfold cross_section_flux.
  apply ll_other_inv in Ho; destruct Ho as [[Hk _] | [Hk _]].
  - rewrite (Hu Hk), Hk; reflexivity.
  - rewrite (Hv Hk), Hk; reflexivity.
Qed.

Lemma flux_uses_the_normal_wind_only_witness :
  boundary_flux ex_scalar ex_box ex_u ex_v 180 None ("longitude0"%string, 0)
  = boundary_flux ex_scalar ex_box ex_u ex_u 180 None ("longitude0"%string, 0).
Proof.
  apply flux_uses_the_normal_wind_only.
  - reflexivity.
  - discriminate.
Defined.

Lemma boundary_flux_warns_at_most_once (scalar_cube : Field) (bx : box)
    (u v : Field) (r_planet : R) (vc : option Constraint) (item : string * R) :
  (length (own_warnings
             (fst (boundary_flux scalar_cube bx u v r_planet vc item))) <= 1)%nat.
Proof.
  rewrite boundary_flux_own_warnings; destruct item as [key val].
  destruct (ll_other (drop_last key)) as [other | s e] eqn:Ho.
  - destruct (nearest_coord_value scalar_cube (drop_last key) val)
      as [nearest | s e] eqn:Hn.
    + rewrite (boundary_constraint_unfold _ _ _ _ _ _ _ Ho Hn); cbn [fst].
      unfold snap_warning; destruct (Rltb _ _); cbn; lia.
    + unfold boundary_constraint; rewrite Ho, Hn; cbn; lia.
  - unfold boundary_constraint; rewrite Ho; cbn; lia.
Qed.

Lemma for_each_warnings {A B} (f : A -> M B) (items : list A) :
  (forall it, length (own_warnings (fst (f it))) <= 1)%nat ->
  (length (own_warnings (fst (for_each f items))) <= length items)%nat.
Proof.
  intros Hf; induction items as [| it rest IH]; cbn [for_each]; [cbn; lia |].
  specialize (Hf it).
  destruct (f it) as [w [b | s e]]; cbn [bind fst] in *; [| cbn; lia].
  destruct (for_each f rest) as [w' [bs | s e]]; cbn [bind fst ret] in *;
    rewrite ?app_nil_r, ?own_warnings_app, ?length_app; cbn [length]; lia.
Qed.

(** X10, the warnings of the function itself: whatever the inputs, its
    [warnings.warn] is reached at most once for each entry of the box.  (The
    warnings that iris issues when it collapses a section come on top of
    these.) *)
Theorem at_most_one_warning_per_box_entry (scalar_cube : Field) (bx : box)
    (u v : Field) (r_planet : R) (vc : option Constraint) :
  (length (own_warnings
             (fst (net_horizontal_flux_to_region scalar_cube bx u v r_planet vc)))
   <= length bx)%nat.
Proof.
  unfold net_horizontal_flux_to_region.
  pose proof (for_each_warnings
                (boundary_flux scalar_cube bx u v r_planet vc) bx
                (boundary_flux_warns_at_most_once scalar_cube bx u v r_planet vc))
    as H.
  destruct (for_each _ bx) as [w [fs | s e]]; cbn [bind fst] in *; [| exact H].
  destruct fs as [| f0 [| f1 [| f2 [| f3 rest]]]]; cbn;
    rewrite ?app_nil_r; exact H.
Qed.

Lemma boundary_constraint_same_keys (scalar_cube : Field) (bx bx' : box)
    (vc : option Constraint) (item : string * R) :
  (forall key, In key ["longitude0"; "longitude1"; "latitude0"; "latitude1"]%string ->
     dict_get bx' key = dict_get bx key) ->
  boundary_constraint scalar_cube bx' vc item
  = boundary_constraint scalar_cube bx vc item.
Proof.
  intros Hk; destruct item as [key val].
  destruct (ll_other (drop_last key)) as [other | s e] eqn:Ho;
    [| unfold boundary_constraint; rewrite Ho; reflexivity].
  destruct (nearest_coord_value scalar_cube (drop_last key) val)
    as [nearest | s e] eqn:Hn;
    [| unfold boundary_constraint; rewrite Ho, Hn; reflexivity].
  rewrite !(boundary_constraint_unfold _ _ _ _ _ _ _ Ho Hn).
  apply ll_other_inv in Ho; destruct Ho as [[_ ->] | [_ ->]];
    cbn [String.append]; rewrite !Hk by (cbn; tauto); reflexivity.
Qed.

Lemma boundary_flux_same_keys (scalar_cube : Field) (bx bx' : box) (u v : Field)
    (r_planet : R) (vc : option Constraint) (item : string * R) :
  (forall key, In key ["longitude0"; "longitude1"; "latitude0"; "latitude1"]%string ->
     dict_get bx' key = dict_get bx key) ->
  boundary_flux scalar_cube bx' u v r_planet vc item
  = boundary_flux scalar_cube bx u v r_planet vc item.
Proof.
  intros Hk; unfold boundary_flux.
  rewrite (boundary_constraint_same_keys _ _ _ _ _ Hk); reflexivity.
Qed.

Lemma four_passes (scalar_cube : Field) (bx : box) (u v : Field) (r_planet : R)
    (vc : option Constraint) (i0 i1 i2 i3 : string * R) (w : list warning)
    (res : FluxResult) :
  bx = [i0; i1; i2; i3] ->
  net_horizontal_flux_to_region scalar_cube bx u v r_planet vc = (w, Ok res) ->
  exists w0 w1 w2 w3 f0 f1 f2 f3,
    boundary_flux scalar_cube bx u v r_planet vc i0 = (w0, Ok f0)
    /\ boundary_flux scalar_cube bx u v r_planet vc i1 = (w1, Ok f1)
    /\ boundary_flux scalar_cube bx u v r_planet vc i2 = (w2, Ok f2)
    /\ boundary_flux scalar_cube bx u v r_planet vc i3 = (w3, Ok f3)
    /\ w = w0 ++ w1 ++ w2 ++ w3
    /\ flux res = (f0 - f1) + (f2 - f3).
Proof.
  intros Hbx H; subst bx.
  set (b := [i0; i1; i2; i3]) in *.
  pose proof H as H'; apply net_flux_inv in H'.
  destruct H' as (f0 & f1 & f2 & f3 & rest & Hall & Hflux).
  unfold b in Hall at 2.
  inversion Hall as [| ? ? ? ? P0 Hall1]; subst.
  inversion Hall1 as [| ? ? ? ? P1 Hall2]; subst.
  inversion Hall2 as [| ? ? ? ? P2 Hall3]; subst.
  inversion Hall3 as [| ? ? ? ? P3 Hall4]; subst.
  inversion Hall4; subst.
  destruct (boundary_flux scalar_cube b u v r_planet vc i0) as [w0 r0] eqn:E0.
  destruct (boundary_flux scalar_cube b u v r_planet vc i1) as [w1 r1] eqn:E1.
  destruct (boundary_flux scalar_cube b u v r_planet vc i2) as [w2 r2] eqn:E2.
  destruct (boundary_flux scalar_cube b u v r_planet vc i3) as [w3 r3] eqn:E3.
  cbn [snd] in *; subst r0 r1 r2 r3.
  pose proof (net_flux_eval scalar_cube b u v r_planet vc i0 i1 i2 i3
                _ _ _ _ _ _ _ _ eq_refl E0 E1 E2 E3) as Hv.
  rewrite Hv in H; inversion H; subst.
  exists w0, w1, w2, w3, f0, f1, f2, f3; repeat split; auto.
Qed.

(** X11, the order of the two pairs: a box that lists its latitudes before
    its longitudes gives the same cube as the box that lists the longitudes
    first. *)
Theorem latitude_pair_first_gives_the_same_flux (scalar_cube : Field)
    (u v : Field) (r_planet : R) (vc : option Constraint)
    (lon0 lon1 lat0 lat1 : R) (w : list warning) (res : FluxResult) :
  net_horizontal_flux_to_region scalar_cube (latlon_box lon0 lon1 lat0 lat1)
    u v r_planet vc = (w, Ok res) ->
  exists w',
    net_horizontal_flux_to_region scalar_cube
      [("latitude0"%string, lat0); ("latitude1"%string, lat1);
       ("longitude0"%string, lon0); ("longitude1"%string, lon1)]
      u v r_planet vc = (w', Ok res).
Proof.
  intros H.
  pose proof (returned_flux_name_aux _ _ _ _ _ _ _ _ H) as Hname.
  destruct (four_passes _ _ _ _ _ _ _ _ _ _ _ _ eq_refl H)
    as (w0 & w1 & w2 & w3 & f0 & f1 & f2 & f3 & E0 & E1 & E2 & E3 & _ & Hflux).
  set (bx' := [("latitude0"%string, lat0); ("latitude1"%string, lat1);
               ("longitude0"%string, lon0); ("longitude1"%string, lon1)]).
  assert (Hk : forall key,
             In key ["longitude0"; "longitude1"; "latitude0"; "latitude1"]%string ->
             dict_get bx' key = dict_get (latlon_box lon0 lon1 lat0 lat1) key).
  { intros key [<- | [<- | [<- | [<- | []]]]]; reflexivity. }
  exists (w2 ++ w3 ++ w0 ++ w1).
  rewrite (net_flux_eval scalar_cube bx' u v r_planet vc _ _ _ _
             w2 w3 w0 w1 f2 f3 f0 f1 eq_refl).
  - destruct res as [nm fl]; cbn in Hname, Hflux; subst nm fl.
    f_equal; f_equal; f_equal; ring.
  - rewrite (boundary_flux_same_keys _ _ _ _ _ _ _ _ Hk); exact E2.
  - rewrite (boundary_flux_same_keys _ _ _ _ _ _ _ _ Hk); exact E3.
  - rewrite (boundary_flux_same_keys _ _ _ _ _ _ _ _ Hk); exact E0.
  - rewrite (boundary_flux_same_keys _ _ _ _ _ _ _ _ Hk); exact E1.
Qed.

Lemma latitude_pair_first_gives_the_same_flux_witness :
  exists w',
    net_horizontal_flux_to_region ex_scalar
      [("latitude0"%string, 0); ("latitude1"%string, 1);
       ("longitude0"%string, 0); ("longitude1"%string, 1)] ex_u ex_v 180 None
    = (w', Ok {| flux_name := "net_q_horizontal_flux_to_region";
                 flux := (0 - 4 * PI) + (0 - 0) |}).
Proof.
  exact (latitude_pair_first_gives_the_same_flux _ _ _ _ _ _ _ _ _ _ _ ex_net).
Defined.

(** X12, the order within the pairs: the sign of each term follows the
    position of the entries, not the digit of their keys; a box that lists
    each upper bound before its lower bound gives the opposite value. *)
Theorem upper_bound_first_reverses_the_sign (scalar_cube : Field)
    (u v : Field) (r_planet : R) (vc : option Constraint)
    (lon0 lon1 lat0 lat1 : R) (w : list warning) (res : FluxResult) :
  net_horizontal_flux_to_region scalar_cube (latlon_box lon0 lon1 lat0 lat1)
    u v r_planet vc = (w, Ok res) ->
  exists w' res',
    net_horizontal_flux_to_region scalar_cube
      [("longitude1"%string, lon1); ("longitude0"%string, lon0);
       ("latitude1"%string, lat1); ("latitude0"%string, lat0)]
      u v r_planet vc = (w', Ok res')
    /\ flux res' = - flux res.
Proof.
  intros H.
  destruct (four_passes _ _ _ _ _ _ _ _ _ _ _ _ eq_refl H)
    as (w0 & w1 & w2 & w3 & f0 & f1 & f2 & f3 & E0 & E1 & E2 & E3 & _ & Hflux).
  set (bx' := [("longitude1"%string, lon1); ("longitude0"%string, lon0);
               ("latitude1"%string, lat1); ("latitude0"%string, lat0)]).
  assert (Hk : forall key,
             In key ["longitude0"; "longitude1"; "latitude0"; "latitude1"]%string ->
             dict_get bx' key = dict_get (latlon_box lon0 lon1 lat0 lat1) key).
  { intros key [<- | [<- | [<- | [<- | []]]]]; reflexivity. }
  eexists; eexists; split.
  - apply (net_flux_eval scalar_cube bx' u v r_planet vc _ _ _ _
             w1 w0 w3 w2 f1 f0 f3 f2 eq_refl).
    + rewrite (boundary_flux_same_keys _ _ _ _ _ _ _ _ Hk); exact E1.
    + rewrite (boundary_flux_same_keys _ _ _ _ _ _ _ _ Hk); exact E0.
    + rewrite (boundary_flux_same_keys _ _ _ _ _ _ _ _ Hk); exact E3.
    + rewrite (boundary_flux_same_keys _ _ _ _ _ _ _ _ Hk); exact E2.
  - cbn [flux]; rewrite Hflux; ring.
Qed.

Lemma upper_bound_first_reverses_the_sign_witness :
  exists w' res',
    net_horizontal_flux_to_region ex_scalar
      [("longitude1"%string, 1); ("longitude0"%string, 0);
       ("latitude1"%string, 1); ("latitude0"%string, 0)] ex_u ex_v 180 None
    = (w', Ok res')
    /\ flux res' = - ((0 - 4 * PI) + (0 - 0)).
Proof.
  exact (upper_bound_first_reverses_the_sign _ _ _ _ _ _ _ _ _ _ _ ex_net).
Defined.

Lemma product_scaled (wx sx a wx' sx' a' : Field) (k : R) :
  axes wx' = axes wx -> axes sx' = axes sx -> axes a' = axes a ->
  (forall idx, values wx' idx * values sx' idx * values a' idx
               = k * (values wx idx * values sx idx * values a idx)) ->
  scaled_cube k (ws <-- multiply wx sx ;; multiply ws a)
                (ws <-- multiply wx' sx' ;; multiply ws a').
Proof.
  intros Hw Hs Ha Hv; unfold scaled_cube, multiply; rewrite Hw, Hs.
  destruct (same_grid (axes wx) (axes sx)); [| reflexivity].
  cbn [rbind axes]; rewrite Ha.
  destruct (same_grid (axes wx) (axes a)); [| reflexivity].
  eexists; split; [reflexivity |]; split; [reflexivity |].
  intros idx; cbn [values]; apply Hv.
Qed.

Lemma cross_section_flux_scaled (k : R) (scalar_cube u v : Field) (r_planet : R)
    (scalar_cube' u' v' : Field) (r_planet' : R) (this_coord : string)
    (cs : Constraint) :
  scaled_cube k
    (cross_section_cube scalar_cube u v r_planet this_coord cs)
    (cross_section_cube scalar_cube' u' v' r_planet' this_coord cs) ->
  cross_section_flux scalar_cube' u' v' r_planet' this_coord cs
  = (fst (cross_section_flux scalar_cube u v r_planet this_coord cs),
     rmap (Rmult k)
       (snd (cross_section_flux scalar_cube u v r_planet this_coord cs))).
Proof.
  unfold scaled_cube, cross_section_flux.
  destruct (cross_section_cube scalar_cube u v r_planet this_coord cs)
    as [cube | s e].
  - intros (cube' & -> & Haxes & Hvalues); cbn [lift bind fst snd rmap].
    unfold collapsed, collapsed_warnings, total, shape; rewrite Haxes.
    cbn [app fst snd rmap]; f_equal; f_equal.
    rewrite <- sum_over_scale; apply sum_over_ext; exact Hvalues.
  - intros ->; reflexivity.
Qed.

Lemma extract_scale (k : R) (cs : Constraint) (f : Field) :
  extract cs (scale k f) = option_map (scale k) (extract cs f).
Proof.
  unfold extract.
  change (known (scale k f)) with (known f).
  change (scalars (scale k f)) with (scalars f).
  change (axes (scale k f)) with (axes f).
  destruct (negb _); [reflexivity |].
  destruct (negb _); [reflexivity |].
  destruct (as_slices cs (axes f)); reflexivity.
Qed.

Lemma area_ignores_data (k : R) (g : option Field) (r_planet : R) :
  vertical_cross_section_area (option_map cube_of (option_map (scale k) g)) r_planet
  = vertical_cross_section_area (option_map cube_of g) r_planet.
Proof. destruct g as [g |]; reflexivity. Qed.

Lemma cross_section_cube_scalar_scaled (k : R) (scalar_cube u v : Field)
    (r_planet : R) (this_coord : string) (cs : Constraint) :
  scaled_cube k
    (cross_section_cube scalar_cube u v r_planet this_coord cs)
    (cross_section_cube (scale k scalar_cube) u v r_planet this_coord cs).
Proof.
  unfold cross_section_cube; rewrite extract_scale, area_ignores_data.
  destruct (vertical_cross_section_area _ r_planet) as [a | s e]; [| reflexivity].
  cbn [rbind].
  destruct (perpendicular_wind_cmpnts u v this_coord) as [wind | s e];
    [| reflexivity].
  cbn [rbind].
  destruct (extract cs wind) as [wx |]; [| reflexivity].
  destruct (extract cs scalar_cube) as [sx |]; [| reflexivity].
  cbn [option_map multiply_extracted].
  apply product_scaled; try reflexivity.
  intros idx; cbn [scale values]; ring.
Qed.

Lemma cross_section_cube_wind_scaled (k : R) (scalar_cube u v : Field)
    (r_planet : R) (this_coord : string) (cs : Constraint) :
  scaled_cube k
    (cross_section_cube scalar_cube u v r_planet this_coord cs)
    (cross_section_cube scalar_cube (scale k u) (scale k v) r_planet this_coord cs).
Proof.
  unfold cross_section_cube.
  destruct (vertical_cross_section_area _ r_planet) as [a | s e]; [| reflexivity].
  cbn [rbind].
  assert (Hw : perpendicular_wind_cmpnts (scale k u) (scale k v) this_coord
               = rmap (scale k) (perpendicular_wind_cmpnts u v this_coord)).
  { unfold perpendicular_wind_cmpnts.
    destruct (String.eqb this_coord "longitude"); [reflexivity |].
    destruct (String.eqb this_coord "latitude"); reflexivity. }
  rewrite Hw.
  destruct (perpendicular_wind_cmpnts u v this_coord) as [wind | s e];
    [| reflexivity].
  cbn [rbind rmap]; rewrite extract_scale.
  destruct (extract cs wind) as [wx |]; [| reflexivity].
  destruct (extract cs scalar_cube) as [sx |]; [| reflexivity].
  cbn [option_map multiply_extracted].
  apply product_scaled; try reflexivity.
  intros idx; cbn [scale values]; ring.
Qed.

Lemma for_each_rmap {A B} (g : B -> B) (f f' : A -> M B) (items : list A) :
  (forall it, f' it = (fst (f it), rmap g (snd (f it)))) ->
  for_each f' items
  = (fst (for_each f items), rmap (map g) (snd (for_each f items))).
Proof.
  intros Hf; induction items as [| it rest IH]; cbn [for_each]; [reflexivity |].
  rewrite Hf, IH.
  destruct (f it) as [w [b | s e]]; [| reflexivity].
  destruct (for_each f rest) as [w' [bs | s e]]; reflexivity.
Qed.

Lemma net_flux_scaled (k : R) (scalar_cube scalar_cube' : Field) (bx : box)
    (u v u' v' : Field) (r_planet r_planet' : R) (vc : option Constraint) :
  field_name scalar_cube' = field_name scalar_cube ->
  (forall tc, boundary_constraint scalar_cube' bx vc tc
              = boundary_constraint scalar_cube bx vc tc) ->
  (forall this_coord cs,
     scaled_cube k
       (cross_section_cube scalar_cube u v r_planet this_coord cs)
       (cross_section_cube scalar_cube' u' v' r_planet' this_coord cs)) ->
  net_horizontal_flux_to_region scalar_cube' bx u' v' r_planet' vc
  = (fst (net_horizontal_flux_to_region scalar_cube bx u v r_planet vc),
     rmap (scale_flux k)
       (snd (net_horizontal_flux_to_region scalar_cube bx u v r_planet vc))).
Proof.
  intros Hname Hbc Hcs; unfold net_horizontal_flux_to_region.
  rewrite (for_each_rmap (Rmult k)
             (boundary_flux scalar_cube bx u v r_planet vc)).
  - rewrite Hname.
    destruct (for_each _ bx) as [w [fs | s e]]; [| reflexivity].
    destruct fs as [| f0 [| f1 [| f2 [| f3 rest]]]]; try reflexivity.
    cbn; unfold scale_flux; cbn; rewrite app_nil_r.
    f_equal; f_equal; f_equal; ring.
  - intros it; unfold boundary_flux; rewrite Hbc.
    destruct (boundary_constraint scalar_cube bx vc it) as [w [tc | s e]];
      [| reflexivity].
    cbn [bind fst snd].
    rewrite (cross_section_flux_scaled k scalar_cube u v r_planet _ _ _ _ _ _
               (Hcs (fst tc) (snd tc))).
    destruct (cross_section_flux scalar_cube u v r_planet (fst tc) (snd tc))
      as [w' [f | s e]]; reflexivity.
Qed.

(** X13, the scalar enters with degree one: on the scalar field with its data
    multiplied by [k] the call issues the same warnings and returns [k]
    times the value under the same name, or fails with the same error. *)
Theorem net_flux_scales_with_the_scalar (k : R) (scalar_cube : Field) (bx : box)
    (u v : Field) (r_planet : R) (vc : option Constraint) :
  net_horizontal_flux_to_region (scale k scalar_cube) bx u v r_planet vc
  = (fst (net_horizontal_flux_to_region scalar_cube bx u v r_planet vc),
     rmap (scale_flux k)
       (snd (net_horizontal_flux_to_region scalar_cube bx u v r_planet vc))).
Proof.
  apply net_flux_scaled.
  - reflexivity.
  - intros tc; reflexivity.
  - intros; apply cross_section_cube_scalar_scaled.
Qed.

(** X14, the wind enters with degree one: with the data of both wind components
    multiplied by [k] the call issues the same warnings and returns [k]
    times the value, or fails with the same error. *)
Theorem net_flux_scales_with_the_wind (k : R) (scalar_cube : Field) (bx : box)
    (u v : Field) (r_planet : R) (vc : option Constraint) :
  net_horizontal_flux_to_region scalar_cube bx (scale k u) (scale k v) r_planet vc
  = (fst (net_horizontal_flux_to_region scalar_cube bx u v r_planet vc),
     rmap (scale_flux k)
       (snd (net_horizontal_flux_to_region scalar_cube bx u v r_planet vc))).
Proof.
  apply net_flux_scaled.
  - reflexivity.
  - intros tc; reflexivity.
  - intros; apply cross_section_cube_wind_scaled.
Qed.




Lemma area_of_extract_Ok (g : option Field) (r_planet : R) (area : Field) :
  vertical_cross_section_area (option_map cube_of g) r_planet = Ok area ->
  exists f a0 a1,
    g = Some f /\ axes f = [a0; a1]
    /\ (2 <= length (axis_points a0))%nat
    /\ (2 <= length (axis_points a1))%nat.
Proof.
  destruct g as [f |]; [| discriminate].
  unfold vertical_cross_section_area; cbn [option_map cube_of dim_coords].
  destruct (axes f) as [| a0 [| a1 rest]] eqn:Eaxes; cbn [map]; try discriminate.
  intros H.
  apply rbind_Ok in H; destruct H as (m & _ & H).
  apply rbind_Ok in H; destruct H as (bs & Hbs & H).
  cbv zeta in H.
  destruct (Nat.eqb _ 2) eqn:Elen; [| discriminate].
  apply Nat.eqb_eq in Elen; destruct rest as [| a2 rest]; [| discriminate].
  exists f, a0, a1; split; [reflexivity |]; split; [exact Eaxes |]; split.
  - destruct (all_bounds_Ok _ _ Hbs _ (or_introl eq_refl)) as [Hb | Hn];
      [contradiction Hb; reflexivity | exact Hn].
  - destruct (all_bounds_Ok _ _ Hbs _ (or_intror (or_introl eq_refl))) as [Hb | Hn];
      [contradiction Hb; reflexivity | exact Hn].
Qed.

Lemma extract_Some (cs : Constraint) (f g : Field) :
  extract cs f = Some g ->
  exists sels, as_slices cs (axes f) = Some sels
               /\ axes g = kept_axes (axes f) sels.
Proof.
  unfold extract.
  destruct (negb _); [discriminate |].
  destruct (negb _); [discriminate |].
  destruct (as_slices cs (axes f)) as [sels |]; [| discriminate].
  intros H; inversion H; exists sels; split; reflexivity.
Qed.

Lemma kept_axes_length (axs : list Axis) :
  forall sels, (length (kept_axes axs sels) <= length axs)%nat.
Proof.
  induction axs as [| a rest IH]; intros [| [i x | cells] sels]; cbn; try lia.
  - specialize (IH sels); lia.
  - specialize (IH sels); lia.
Qed.

Lemma NoDup_constant (c : R) (l : list R) :
  NoDup l -> (forall x, In x l -> x = c) -> (length l <= 1)%nat.
Proof.
  intros Hnd Hc; destruct l as [| x [| y l]]; cbn; try lia.
  exfalso; inversion Hnd as [| ? ? Hnotin _]; subst.
  apply Hnotin; left.
  rewrite (Hc x), (Hc y); cbn; auto.
Qed.

Lemma pinned_axis_is_dropped (cs : Constraint) (c : R) (a : Axis) (axs : list Axis) :
  In a axs ->
  NoDup (axis_points a) ->
  (forall x, constrained cs (axis_name a) x = true -> x = c) ->
  forall sels,
    as_slices cs axs = Some sels ->
    (forall b, In b (kept_axes axs sels) -> (2 <= length (axis_points b))%nat) ->
    (length (kept_axes axs sels) < length axs)%nat.
Proof.
  intros Hin Hnd Hc; induction axs as [| b rest IH]; [destruct Hin |].
  intros sels Hs Hkept; cbn [as_slices] in Hs.
  destruct (as_slice (tests cs (axis_name b)) (constrained cs (axis_name b))
              (axis_points b)) as [s |] eqn:Es; [| discriminate].
  destruct (as_slices cs rest) as [ss |] eqn:Ess; [| discriminate].
  inversion Hs; subst sels; clear Hs.
  destruct Hin as [-> | Hin].
  - destruct s as [i x | cells]; cbn [kept_axes length] in *.
    + pose proof (kept_axes_length rest ss); lia.
    + exfalso.
      specialize (Hkept _ (or_introl eq_refl)); cbn [axis_points] in Hkept.
      apply as_slice_points in Es; cbn [selected_points] in Es.
      rewrite Es in Hkept.
      assert (length (filter (constrained cs (axis_name a)) (axis_points a)) <= 1)%nat.
      { apply (NoDup_constant c).
        - apply NoDup_filter; exact Hnd.
        - intros x Hx; apply filter_In in Hx; apply Hc; tauto. }
      lia.
  - destruct s as [i x | cells]; cbn [kept_axes length] in *.
    + specialize (IH Hin ss eq_refl Hkept); lia.
    + specialize (IH Hin ss eq_refl (fun b Hb => Hkept b (or_intror Hb))); lia.
Qed.

(** X16, the dimensions of the scalar field: when the longitude or the
    latitude is a dimension of the field with distinct points, the call
    returns only for a field of at least three dimensions, since each
    section pins that dimension to one point and must still have two. *)
Theorem section_through_a_grid_axis_needs_a_third_dimension
    (scalar_cube : Field) (bx : box) (u v : Field) (r_planet : R)
    (vc : option Constraint) (w : list warning) (res : FluxResult) (a : Axis) :
  net_horizontal_flux_to_region scalar_cube bx u v r_planet vc = (w, Ok res) ->
  In a (axes scalar_cube) ->
  axis_name a = "longitude"%string \/ axis_name a = "latitude"%string ->
  NoDup (axis_points a) ->
  (3 <= length (axes scalar_cube))%nat.
Proof.
  intros H Hin Hname Hnd.
  destruct (pass_over_each_axis _ _ _ _ _ _ _ _ H (axis_name a) Hname)
    as (key & val & f & _ & Hkey & Hf).
  rewrite boundary_flux_snd in Hf.
  apply rbind_Ok in Hf; destruct Hf as (tc & Htc & Hf).
  destruct (boundary_constraint scalar_cube bx vc (key, val)) as [w' r] eqn:E.
  cbn [snd] in Htc; subst r.
  apply boundary_constraint_Ok in E.
  destruct E as (other & nearest & lo & hi & _ & _ & _ & _ & _ & ->).
  cbn [fst snd] in Hf; rewrite Hkey in Hf.
  apply cross_section_flux_Ok in Hf.
  destruct Hf as (area & wind & wx & sx & ws & cube & Harea & _ & _ & Hsx & _).
  apply (area_of_extract_Ok (Some sx)) in Harea.
  destruct Harea as (g & a0 & a1 & Hg & Haxes & H0 & H1).
  inversion Hg; subst g; clear Hg.
  apply extract_Some in Hsx; destruct Hsx as (sels & Hsels & Hkept).
  rewrite Haxes in Hkept.
  assert (Hshort : (length (kept_axes (axes scalar_cube) sels)
                    < length (axes scalar_cube))%nat).
  { refine (pinned_axis_is_dropped _ nearest a _ Hin Hnd _ sels Hsels _).
    - intros x Hx; unfold constrained in Hx; cbn [app forallb fst snd] in Hx.
      rewrite String.eqb_refl in Hx.
      apply andb_prop in Hx; destruct Hx as [Hx _].
      apply Reqb_spec; exact Hx.
    - rewrite <- Hkept; intros b [<- | [<- | []]]; assumption. }
  rewrite <- Hkept in Hshort; cbn [length] in Hshort; lia.
Qed.

Lemma ex_longitudes_distinct : NoDup [0; 1].
Proof.
  constructor; [intros [H | []]; lra |].
  constructor; [intros [] | constructor].
Qed.

Lemma section_through_a_grid_axis_needs_a_third_dimension_witness :
  let a := {| axis_name := "longitude"; axis_points := [0; 1] |} in
  In a (axes ex_scalar)
  /\ NoDup (axis_points a)
  /\ (3 <= length (axes ex_scalar))%nat.
Proof.
  intros a.
  assert (Hin : In a (axes ex_scalar)) by (cbn; tauto).
  split; [exact Hin |]; split; [exact ex_longitudes_distinct |].
  exact (section_through_a_grid_axis_needs_a_third_dimension
           ex_scalar ex_box ex_u ex_v 180 None _ _ a ex_net Hin
           (or_introl eq_refl) ex_longitudes_distinct).
Defined.

(** ** A box closed on itself in longitude *)












(** ** [MidpointNormalize.__call__] *)

Section NormalizeOrdered.

Import Mpl.

Variable self : MidpointNormalize.
Hypothesis vmin_le_midpoint : vmin self <= midpoint self.
Hypothesis midpoint_le_vmax : midpoint self <= vmax self.

Lemma call_segments (x : R) :
  (x < vmin self /\ call self x = 0)
  \/ (vmin self <= x < midpoint self
      /\ call self x = 0.5 * ((x - vmin self) / (midpoint self - vmin self)))
  \/ (midpoint self <= x < vmax self
      /\ call self x
         = 0.5 + 0.5 * ((x - midpoint self) / (vmax self - midpoint self)))
  \/ (vmax self <= x /\ call self x = 1).
Proof using All.
  destruct (Rlt_dec x (vmin self)) as [Hlo | Hlo].
  { left; split; [exact Hlo |]; unfold call, np_interp; Reval; reflexivity. }
  destruct (Rlt_dec x (midpoint self)) as [Hmid | Hmid].
  { right; left; split; [lra |]; unfold call, np_interp; Reval.
    destruct (Req_dec_T (vmin self) x) as [E | N].
    - rewrite (Reqb_true _ _ E), <- E; rewrite half; field; lra.
    - rewrite (Reqb_false _ _ N); rewrite half; field; lra. }
  destruct (Rlt_dec x (vmax self)) as [Hhi | Hhi].
  { right; right; left; split; [lra |]; unfold call, np_interp; Reval.
    destruct (Req_dec_T (midpoint self) x) as [E | N].
    - rewrite (Reqb_true _ _ E), <- E; rewrite half; field; lra.
    - rewrite (Reqb_false _ _ N); rewrite half; field; lra. }
  right; right; right; split; [lra |].
  destruct (Rlt_dec (vmax self) x) as [Habove | Habove].
  - unfold call, np_interp; Reval; reflexivity.
  - unfold call, np_interp; Reval; reflexivity.
Qed.

End NormalizeOrdered.

(** X17, the range and the order: for every [vmin <= midpoint <= vmax],
    the equalities included, the normalised value lies between 0 and 1 and
    never decreases when the input grows. *)
Theorem normalize_is_monotone_into_the_unit_interval (self : Mpl.MidpointNormalize) :
  Mpl.vmin self <= Mpl.midpoint self ->
  Mpl.midpoint self <= Mpl.vmax self ->
  (forall x, 0 <= Mpl.call self x <= 1)
  /\ (forall x y, x <= y -> Mpl.call self x <= Mpl.call self y).
Proof.
  intros H1 H2.
  assert (Hrange : forall x, 0 <= Mpl.call self x <= 1).
  { intros x.
    destruct (call_segments self H1 H2 x)
      as [[Hx ->] | [[Hx ->] | [[Hx ->] | [Hx ->]]]]; try lra.
    - pose proof (frac_unit (x - Mpl.vmin self) (Mpl.midpoint self - Mpl.vmin self)).
      lra.
    - pose proof (frac_unit (x - Mpl.midpoint self) (Mpl.vmax self - Mpl.midpoint self)).
      lra. }
  split; [exact Hrange |].
  intros x y Hxy.
  pose proof (Hrange x) as Rx; pose proof (Hrange y) as Ry.
  destruct (call_segments self H1 H2 x)
    as [[Hx Ex] | [[Hx Ex] | [[Hx Ex] | [Hx Ex]]]];
    destruct (call_segments self H1 H2 y)
      as [[Hy Ey] | [[Hy Ey] | [[Hy Ey] | [Hy Ey]]]];
    try lra.
  - rewrite Ex, Ey.
    pose proof (frac_mono (x - Mpl.vmin self) (y - Mpl.vmin self)
                  (Mpl.midpoint self - Mpl.vmin self)).
    lra.
  - rewrite Ex, Ey.
    pose proof (frac_unit (x - Mpl.vmin self) (Mpl.midpoint self - Mpl.vmin self)).
    pose proof (frac_unit (y - Mpl.midpoint self) (Mpl.vmax self - Mpl.midpoint self)).
    lra.
  - rewrite Ex, Ey.
    pose proof (frac_mono (x - Mpl.midpoint self) (y - Mpl.midpoint self)
                  (Mpl.vmax self - Mpl.midpoint self)).
    lra.
Qed.

Lemma normalize_is_monotone_into_the_unit_interval_witness :
  let self := {| Mpl.vmin := 0; Mpl.vmax := 1; Mpl.midpoint := 0 |} in
  (forall x, 0 <= Mpl.call self x <= 1)
  /\ (forall x y, x <= y -> Mpl.call self x <= Mpl.call self y).
Proof.
  intros self.
  apply (normalize_is_monotone_into_the_unit_interval self); simpl; lra.
Defined.

(** X18, a midpoint half way between [vmin] and [vmax]: on [[vmin, vmax]]
    the normalisation is then the plain linear one,
    [(x - vmin) / (vmax - vmin)]. *)
Theorem centred_midpoint_is_the_linear_norm (self : Mpl.MidpointNormalize) (x : R) :
  Mpl.vmin self < Mpl.vmax self ->
  Mpl.midpoint self = (Mpl.vmin self + Mpl.vmax self) / 2 ->
  Mpl.vmin self <= x <= Mpl.vmax self ->
  Mpl.call self x = (x - Mpl.vmin self) / (Mpl.vmax self - Mpl.vmin self).
Proof.
  intros Hlt Hmid Hx.
  assert (H1 : Mpl.vmin self <= Mpl.midpoint self) by lra.
  assert (H2 : Mpl.midpoint self <= Mpl.vmax self) by lra.
  destruct (call_segments self H1 H2 x)
    as [[Hs _] | [[Hs ->] | [[Hs ->] | [Hs ->]]]].
  - lra.
  - rewrite Hmid, half; field; lra.
  - rewrite Hmid, half; field; lra.
  - replace x with (Mpl.vmax self) by lra; field; lra.
Qed.

Lemma centred_midpoint_is_the_linear_norm_witness :
  let self := {| Mpl.vmin := -1; Mpl.vmax := 3; Mpl.midpoint := 1 |} in
  Mpl.call self 0 = (0 - -1) / (3 - -1).
Proof.
  intros self.
  apply (centred_midpoint_is_the_linear_norm self 0); simpl; lra.
Defined.
